(** * StreamHive: transcoding pipeline and playback resolver

    A shallow embedding of the Go code of the transcoder worker
    ([Transcoder.Handle], [buildMaster]) and of the playback handler
    ([GetMaster], [GetVariant], [GetSegment], [GetThumbnail],
    [extractBlobPath]), with the properties of the design document stated
    and settled against it.

    Go strings are byte sequences: they are modelled by [string], whose
    characters are the 8-bit [ascii].  Go maps are [gmap]s.  External
    collaborators (database, object store, HTTP upstream, encoder, message
    broker, local file system) are oracles of a world record, and every call
    to one of them is recorded in a trace of effects. *)

From Stdlib Require Import ZArith String Ascii List Bool Lia DecimalString.
From stdpp Require Import base option list gmap strings.

Open Scope string_scope.

(** ** The part of Go's standard library the code relies on *)

Module GoStrings.

(** The line feed, written ["\n"] in the Go sources. *)
Definition nl : string := String (ascii_of_nat 10) "".

(** [s[n:]] *)
Fixpoint drop (n : nat) (s : string) : string :=
  match n, s with
  | 0, _ => s
  | S _, "" => ""
  | S k, String _ s' => drop k s'
  end.

(** [s[:n]] *)
Definition take (n : nat) (s : string) : string := substring 0 n s.

(** [strings.HasPrefix(s, prefix)] *)
Definition HasPrefix (s pre : string) : bool := String.prefix pre s.

(** [strings.TrimPrefix(s, prefix)]: [s] without the leading [prefix],
    [s] itself when it does not start with it. *)
Definition TrimPrefix (s pre : string) : string :=
  if HasPrefix s pre then drop (String.length pre) s else s.

(** [strings.HasSuffix(s, suffix)] *)
Definition HasSuffix (s suf : string) : bool :=
  (String.length suf <=? String.length s)%nat
  && String.eqb (drop (String.length s - String.length suf) s) suf.

(** [strings.TrimSuffix(s, suffix)] *)
Definition TrimSuffix (s suf : string) : string :=
  if HasSuffix s suf then take (String.length s - String.length suf) s else s.

(** [strings.TrimRight(s, cutset)] for a one-character cutset. *)
Fixpoint TrimRight (s : string) (c : ascii) : string :=
  match s with
  | "" => ""
  | String a s' =>
      match TrimRight s' c with
      | "" => if Ascii.eqb a c then "" else String a ""
      | t => String a t
      end
  end.

(** [strings.Index(s, sep)]: position of the first occurrence, [None]
    for Go's [-1]. *)
Fixpoint Index (s sep : string) : option nat :=
  if HasPrefix s sep then Some 0
  else match s with
       | "" => None
       | String _ s' => S <$> Index s' sep
       end.

(** [strings.Contains(s, substr)] *)
Definition Contains (s sub : string) : bool := bool_decide (is_Some (Index s sub)).

(** The loop of [strings.SplitN] for a non-empty separator: at most
    [k] cuts, the rest of the string is the last element. *)
Fixpoint genSplit (k : nat) (s sep : string) : list string :=
  match k with
  | 0 => [s]
  | S k' =>
      match Index s sep with
      | None => [s]
      | Some m => take m s :: genSplit k' (drop (m + String.length sep) s) sep
      end
  end.

(** [strings.SplitN(s, sep, n)] for [n >= 0] and a non-empty [sep]
    (the separator is a non-empty literal at every call site). *)
Definition SplitN (s sep : string) (n : nat) : list string :=
  match n with
  | 0 => []
  | S k => genSplit k s sep
  end.

(** [strings.Split(s, sep)], that is [SplitN] without a bound: a string
    of length [l] holds at most [l] separators. *)
Definition Split (s sep : string) : list string :=
  genSplit (String.length s) s sep.

(** [strings.Join(elems, sep)] *)
Fixpoint Join (elems : list string) (sep : string) : string :=
  match elems with
  | [] => ""
  | [e] => e
  | e :: es => e +:+ sep +:+ Join es sep
  end.

(** The pieces of [s] between the occurrences of the byte [c]:
    [strings.Split] for a one-byte separator, in one pass. *)
Fixpoint cutAll (c : ascii) (s : string) : list string :=
  match s with
  | "" => [""]
  | String a s' =>
      if Ascii.eqb a c then "" :: cutAll c s'
      else match cutAll c s' with
           | p :: ps => String a p :: ps
           | [] => [String a ""]
           end
  end.

(** [strings.ToLower] on the ASCII letters; the bytes of other runes
    are left as they are, which no test on an ASCII suffix can see. *)
Definition lower (c : ascii) : ascii :=
  let n := nat_of_ascii c in
  if ((65 <=? n) && (n <=? 90))%nat then ascii_of_nat (n + 32) else c.

Fixpoint ToLower (s : string) : string :=
  match s with
  | "" => ""
  | String a s' => String (lower a) (ToLower s')
  end.

End GoStrings.

Module Fmt.

(** The verb [%d] of [fmt.Sprintf] on an [int]: signed decimal. *)
Definition FormatInt (z : Z) : string := NilZero.string_of_int (Z.to_int z).

End Fmt.

Import GoStrings.

(** ** Transcoder: the master manifest *)

Module Master.

(** The two tables of [buildMaster]; a missing key reads as the zero
    value of the element type, as Go's map lookup does. *)
Definition bw : gmap string Z :=
  list_to_map [("1080p", 5192000%Z); ("720p", 2928000%Z);
               ("480p", 1496000%Z); ("360p", 864000%Z)].

Definition resMap : gmap string string :=
  list_to_map [("1080p", "1920x1080"); ("720p", "1280x720");
               ("480p", "854x480"); ("360p", "640x360")].

Definition defaultLadder : list string := ["1080p"; "720p"; "480p"; "360p"].

(** One turn of the loop of [buildMaster]: the two [Sprintf]s appended
    to [s]. *)
Definition appendEntry (s r : string) : string :=
  (s +:+ ("#EXT-X-STREAM-INF:BANDWIDTH=" +:+ Fmt.FormatInt (default 0%Z (bw !! r))
          +:+ ",RESOLUTION=" +:+ default "" (resMap !! r) +:+ nl))
  +:+ (r +:+ "/index.m3u8" +:+ nl).

Definition buildMaster (userId uploadId : string) (ladder : list string) : string :=
  let ladder := if (length ladder =? 0)%nat then defaultLadder else ladder in
  fold_left appendEntry ladder ("#EXTM3U" +:+ nl).

End Master.

(** ** [path] and [path/filepath] (Unix) *)

Module GoPath.

Definition slash : ascii := "/"%char.

(** The elements of a path between its slashes: the scan of [Clean]
    advances from one slash to the next. *)
Definition components (s : string) : list string := cutAll slash s.

(** One element read by [Clean], [out] being the elements written so
    far, the last one first.  An empty element and [.] are skipped; [..]
    removes the last real element, is dropped at the root, and is kept
    otherwise; any other element is appended. *)
Definition cleanStep (rooted : bool) (out : list string) (c : string) : list string :=
  if String.eqb c "" || String.eqb c "." then out
  else if String.eqb c ".." then
    match out with
    | top :: rest =>
        if String.eqb top ".." then (if rooted then out else ".." :: out) else rest
    | [] => if rooted then out else [".."]
    end
  else c :: out.

(** [path.Clean] (and [filepath.Clean] on Unix). *)
Definition Clean (path : string) : string :=
  if String.eqb path "" then "."
  else
    let rooted := HasPrefix path "/" in
    let out := rev (fold_left (cleanStep rooted) (components path) []) in
    let body := GoStrings.Join out "/" in
    if rooted then "/" +:+ body
    else if String.eqb body "" then "." else body.

(** [path.Join] (and [filepath.Join] on Unix): the elements from the
    first non-empty one on, joined by slashes and cleaned. *)
Fixpoint Join (elem : list string) : string :=
  match elem with
  | [] => ""
  | e :: es =>
      if String.eqb e "" then Join es
      else Clean (GoStrings.Join elem "/")
  end.

(** [filepath.ToSlash] is the identity where the separator is a slash. *)
Definition ToSlash (path : string) : string := path.

(** The part of [s] from its last dot on, if it has one. *)
Fixpoint lastDot (s : string) : option string :=
  match s with
  | "" => None
  | String a s' =>
      match lastDot s' with
      | Some e => Some e
      | None => if Ascii.eqb a "."%char then Some s else None
      end
  end.

(** [filepath.Ext]: the suffix starting at the last dot of the last
    element of the path. *)
Definition Ext (path : string) : string :=
  default "" (lastDot (List.last (components path) "")).

End GoPath.

(** ** Transcoder: the job handler *)

Module Transcoder.

Record UploadEvent := {
  UploadID : string;
  UserID : string;
  Username : string;
  OriginalName : string;
  Title : string;
  Description : string;
  Tags : list string;
  IsPrivate : bool;
  Category : string;
  RawVideoPath : string;
  ContainerName : string;
  BlobURL : string;
  Resolutions : list string
}.

(** The JSON object published as [video.transcoded]. *)
Record CompletionEvent := {
  uploadId : string;
  userId : string;
  title : string;
  description : string;
  tags : list string;
  category : string;
  isPrivate : bool;
  originalFilename : string;
  rawVideoPath : string;
  hlsMasterUrl : string;
  thumbnailUrl : string;
  ready : bool
}.

(** What [filepath.WalkDir] hands to its callback for one entry of the
    tree: an error, a directory, or a file, given by its path relative
    to the root of the walk. *)
Inductive WalkEntry :=
| WalkError (e : string)
| WalkDirectory (rel : string)
| WalkFile (rel : string).

(** Calls that leave the process. *)
Inductive Effect :=
| EMkdirAll (path : string)
| ERemoveAll (path : string)
| EDownload (blobPath localPath : string)
| EEncode (input resDir res : string)
| EWriteFile (path content : string)
| EUpload (localPath blobPath contentType : string)
| EThumbnail (input output : string)
| EPublish (out : CompletionEvent)
| ELog (msg : string).

(** The errors [Handle] returns: the text of the underlying failure,
    wrapped as the source wraps it. *)
Inductive error :=
| ErrJSON (e : string)
| ErrMissingFields
| ErrPlain (e : string)
| ErrDownload (e : string)
| ErrFFmpeg (res e : string)
| ErrUploadHLS (e : string).

(** The collaborators of one job attempt.  A call answers [None] when it
    succeeds and [Some e], the error text, when it fails.  [readSecret]
    gives the trimmed content of a mounted secret file, [None] when the
    file cannot be read. *)
Record World := {
  getenv : string → string;
  readSecret : string → option string;
  tempDir : string;
  unmarshal : string → string + UploadEvent;
  mkdirAll : string → option string;
  downloadTo : string → string → option string;
  runEncoder : nat → string → option string;
  writeFile : string → string → option string;
  walkDir : string → list WalkEntry;
  uploadFile : string → string → option string;
  runThumbnail : option string;
  publishJSON : CompletionEvent → option string;
  mimeTypeByExtension : string → string
}.

(** A computation that records its effects and ends in an error or a
    value. *)
Definition M (A : Type) : Type := list Effect * (error + A).

Definition ret {A} (a : A) : M A := ([], inr a).

Definition fail {A} (e : error) : M A := ([], inl e).

Definition bind {A B} (m : M A) (k : A → M B) : M B :=
  match m with
  | (t, inl e) => (t, inl e)
  | (t, inr a) => let '(t', r) := k a in ((t ++ t')%list, r)
  end.

Definition emit (e : Effect) : M unit := ([e], inr tt).

(** A call to a collaborator: the effect, then the error if it failed. *)
Definition call (e : Effect) (r : option string) (wrap : string → error) : M unit :=
  match r with
  | None => ([e], inr tt)
  | Some msg => ([e], inl (wrap msg))
  end.

(** [defer f()]: the effect runs when the rest of the function is left,
    whatever its outcome. *)
Definition defer {A} (e : Effect) (m : M A) : M A :=
  let '(t, r) := m in ((t ++ [e])%list, r).

(** [fmt.Errorf("...: %w", err)] around a call that returns a bare
    error. *)
Definition wrapErr {A} (wrap : string → error) (m : M A) : M A :=
  match m with
  | (t, inl (ErrPlain e)) => (t, inl (wrap e))
  | _ => m
  end.

#[global] Instance M_ret : MRet M := @ret.
#[global] Instance M_bind : MBind M := fun A B k m => bind m k.

Definition getSecret (w : World) (filePath envVar : string) : string :=
  match readSecret w filePath with
  | Some data => data
  | None => getenv w envVar
  end.

(** The public URL of a blob of the processed bucket. *)
Definition buildAzureURL (w : World) (blobPath : string) : M string :=
  let base := getenv w "MINIO_PUBLIC_BASE" in
  if negb (base =? "") then
    ret (TrimRight base "/" +:+ "/" +:+ blobPath)
  else
    let endpoint := getSecret w "/mnt/secrets-store/minio-endpoint" "MINIO_ENDPOINT" in
    let endpoint := if endpoint =? "" then getenv w "MINIO_ENDPOINT" else endpoint in
    let port := getSecret w "/mnt/secrets-store/minio-port" "MINIO_PORT" in
    let port := if port =? "" then getenv w "MINIO_PORT" else port in
    if endpoint =? "" then
      emit (ELog "MinIO endpoint not set, returning relative URL");;
      ret ("/" +:+ blobPath)
    else
      let scheme := if getenv w "MINIO_USE_SSL" =? "true" then "https" else "http" in
      let host := if negb (port =? "") then endpoint +:+ ":" +:+ port else endpoint in
      ret (scheme +:+ "://" +:+ host +:+ "/" +:+ blobPath).

Definition detectContentType (w : World) (path : string) : string :=
  let low := ToLower path in
  if HasSuffix low ".m3u8" then "application/vnd.apple.mpegurl"
  else if HasSuffix low ".ts" then "video/MP2T"
  else if HasSuffix low ".jpg" || HasSuffix low ".jpeg" then "image/jpeg"
  else if HasSuffix low ".png" then "image/png"
  else
    let ct := mimeTypeByExtension w (GoPath.Ext low) in
    if negb (ct =? "") then ct else "application/octet-stream".

(** [S3Client.UploadFile]: one object put into the processed bucket. *)
Definition UploadFile (w : World) (localPath blobPath contentType : string) : M unit :=
  call (EUpload localPath blobPath contentType) (uploadFile w localPath blobPath) ErrPlain.

(** The callback of [S3Client.UploadDir] over the entries of the walk;
    the first error ends the walk. *)
Fixpoint uploadEntries (w : World) (localRoot blobPrefix : string)
    (entries : list WalkEntry) : M unit :=
  match entries with
  | [] => ret tt
  | WalkError e :: _ => fail (ErrPlain e)
  | WalkDirectory _ :: rest => uploadEntries w localRoot blobPrefix rest
  | WalkFile rel :: rest =>
      let path := GoPath.Join [localRoot; rel] in
      let blobName := GoPath.ToSlash (GoPath.Join [blobPrefix; rel]) in
      let ct := detectContentType w path in
      UploadFile w path blobName ct;;
      uploadEntries w localRoot blobPrefix rest
  end.

Definition UploadDir (w : World) (localRoot blobPrefix : string) : M unit :=
  uploadEntries w localRoot blobPrefix (walkDir w localRoot).

(** The loop over the ladder: [k] is the number of renditions already
    encoded. *)
Fixpoint encodeLadder (w : World) (inputPath outRoot : string) (k : nat)
    (ladder : list string) : M unit :=
  match ladder with
  | [] => ret tt
  | res :: rest =>
      let resDir := GoPath.Join [outRoot; res] in
      call (EMkdirAll resDir) (mkdirAll w resDir) ErrPlain;;
      call (EEncode inputPath resDir res) (runEncoder w k res) (ErrFFmpeg res);;
      emit (ELog ("rendition done " +:+ res));;
      encodeLadder w inputPath outRoot (S k) rest
  end.

Definition ladderOf (evt : UploadEvent) : list string :=
  if (length (Resolutions evt) =? 0)%nat then ["1080p"; "720p"; "480p"; "360p"]
  else Resolutions evt.

Definition hlsBase (evt : UploadEvent) : string :=
  "hls/" +:+ UserID evt +:+ "/" +:+ UploadID evt.

Definition thumbBlobPathOf (evt : UploadEvent) : string :=
  "thumbnails/" +:+ UserID evt +:+ "/" +:+ UploadID evt +:+ ".jpg".

(** [Handle] from the download of the source to the upload of the HLS
    tree. *)
Definition produceHLS (w : World) (evt : UploadEvent) (work : string) : M unit :=
  let inputPath := GoPath.Join [work; "input.mp4"] in
  call (EDownload (RawVideoPath evt) inputPath)
       (downloadTo w (RawVideoPath evt) inputPath) ErrDownload;;
  let outRoot := GoPath.Join [work; "hls"] in
  call (EMkdirAll outRoot) (mkdirAll w outRoot) ErrPlain;;
  let ladder := ladderOf evt in
  encodeLadder w inputPath outRoot 0 ladder;;
  let masterPath := GoPath.Join [outRoot; "master.m3u8"] in
  let content := Master.buildMaster (UserID evt) (UploadID evt) ladder in
  call (EWriteFile masterPath content) (writeFile w masterPath content) ErrPlain;;
  wrapErr ErrUploadHLS (UploadDir w outRoot (hlsBase evt)).

(** The thumbnail step: the URL of the uploaded thumbnail, empty when
    the frame could not be extracted or uploaded. *)
Definition makeThumbnail (w : World) (evt : UploadEvent) (work : string) : M string :=
  let inputPath := GoPath.Join [work; "input.mp4"] in
  let thumbPath := GoPath.Join [work; "thumb.jpg"] in
  emit (EThumbnail inputPath thumbPath);;
  match runThumbnail w with
  | None =>
      let thumbBlobPath := thumbBlobPathOf evt in
      emit (EUpload thumbPath thumbBlobPath "image/jpeg");;
      match uploadFile w thumbPath thumbBlobPath with
      | None => buildAzureURL w thumbBlobPath
      | Some _ => ret ""
      end
  | Some _ => ret ""
  end.

(** The end of [Handle]: the completion event. *)
Definition publishTranscoded (w : World) (evt : UploadEvent) (thumbnailURL : string) : M unit :=
  masterUrl ← buildAzureURL w (hlsBase evt +:+ "/" +:+ "master.m3u8");
  let out := {|
    uploadId := UploadID evt;
    userId := UserID evt;
    title := Title evt;
    description := Description evt;
    tags := Tags evt;
    category := Category evt;
    isPrivate := IsPrivate evt;
    originalFilename := OriginalName evt;
    rawVideoPath := RawVideoPath evt;
    hlsMasterUrl := masterUrl;
    thumbnailUrl := thumbnailURL;
    ready := true
  |} in
  call (EPublish out) (publishJSON w out) ErrPlain.

Definition workDir (w : World) (evt : UploadEvent) : string :=
  GoPath.Join [tempDir w; "transcoder-" +:+ UploadID evt].

Definition Handle (w : World) (body : string) : M unit :=
  match unmarshal w body with
  | inl e => fail (ErrJSON e)
  | inr evt =>
      if (UploadID evt =? "") || (UserID evt =? "") || (RawVideoPath evt =? "")
      then fail ErrMissingFields
      else
        let work := workDir w evt in
        call (EMkdirAll work) (mkdirAll w work) ErrPlain;;
        defer (ERemoveAll work)
          (produceHLS w evt work;;
           thumbnailURL ← makeThumbnail w evt work;
           publishTranscoded w evt thumbnailURL)
  end.

End Transcoder.

(** ** Playback: resolver, manifest proxy and segment cache *)

Module Playback.

(** The columns of [models.Video] the handlers read. *)
Record Video := {
  UploadID : string;
  UserID : string;
  HLSMasterURL : string;
  ThumbnailURL : string
}.

Record HTTPResponse := {
  StatusCode : Z;
  Header : gmap string (list string);
  Body : string
}.

(** [s3client] and [cache] tell whether the pointer of that name is
    non-nil. *)
Record Handler := {
  s3client : bool;
  bucket : string;
  cache : bool
}.

(** Modelled from the spec: the key of a cache entry of the cache
    service (package [internal/cache], not among the sources at hand) is
    the composite of the resource kind, the uploadId and the blob path. *)
Definition CacheKey : Type := string * string * string.

(** Modelled from the spec: [CacheService.GenerateKey], which is not
    among the sources at hand, pairs its three arguments. *)
Definition GenerateKey (kind uploadID blobPath : string) : CacheKey :=
  (kind, uploadID, blobPath).

Abbreviation Store := (gmap CacheKey string).

(** The collaborators of a request.  [dbFirst] is the query
    [Where("upload_id = ?", id).First(&v)], [None] when it ends in an
    error, the absence of a row included.  A cache call answers [Some e]
    when the cache store fails. *)
Record World := {
  dbFirst : string → option Video;
  getObject : string → string → string + string;
  httpGet : string → string + HTTPResponse;
  cacheGetErr : CacheKey → option string;
  cacheSetErr : CacheKey → option string
}.

Inductive Effect :=
| EQuery (uploadID : string)
| EGetObject (bucket key : string)
| EHttpGet (url : string)
| ECacheGet (key : CacheKey)
| ECacheSet (key : CacheKey) (data : string)
| ELog (msg : string).

(** What the handler writes to the client. *)
Inductive Response :=
| Reply (status : Z) (headers : gmap string string) (body : string)
| Redirect (status : Z) (location : string).

Definition statusOf (r : Response) : Z :=
  match r with
  | Reply s _ _ => s
  | Redirect s _ => s
  end.

Definition bodyOf (r : Response) : string :=
  match r with
  | Reply _ _ b => b
  | Redirect _ _ => ""
  end.

(** A request runs over the content of the cache store and records its
    effects. *)
Definition P (A : Type) : Type := Store → A * Store * list Effect.

Definition ret {A} (a : A) : P A := fun st => (a, st, []).

Definition bind {A B} (m : P A) (k : A → P B) : P B :=
  fun st =>
    let '(a, st1, t1) := m st in
    let '(b, st2, t2) := k a st1 in
    (b, st2, (t1 ++ t2)%list).

#[global] Instance P_ret : MRet P := @ret.
#[global] Instance P_bind : MBind P := fun A B k m => bind m k.

Definition emit (e : Effect) : P unit := fun st => (tt, st, [e]).

Definition log (msg : string) : P unit := emit (ELog msg).

Definition queryFirst (w : World) (uploadID : string) : P (option Video) :=
  fun st => (dbFirst w uploadID, st, [EQuery uploadID]).

(** Modelled from the spec: [CacheService.Get] looks the key up; a hit
    gives the cached bytes, a miss gives nil, and a failure of the store
    gives nil and an error. *)
Definition cacheGet (w : World) (key : CacheKey) : P (option string * option string) :=
  fun st =>
    match cacheGetErr w key with
    | Some e => ((None, Some e), st, [ECacheGet key])
    | None => ((st !! key, None), st, [ECacheGet key])
    end.

(** Modelled from the spec: [CacheService.Set] stores the bytes under
    the key, or fails and leaves the store as it was. *)
Definition cacheSet (w : World) (key : CacheKey) (data : string) : P (option string) :=
  fun st =>
    match cacheSetErr w key with
    | Some e => (Some e, st, [ECacheSet key data])
    | None => (None, <[key := data]> st, [ECacheSet key data])
    end.

(** [c.Header(key, value)] *)
Definition setHeader (key value : string) (hs : gmap string string) : gmap string string :=
  if value =? "" then delete key hs else <[key := value]> hs.

(** The content type is written unless the handler has set one. *)
Definition writeContentType (value : string) (hs : gmap string string) : gmap string string :=
  match hs !! "Content-Type" with
  | Some _ => hs
  | None => <["Content-Type" := value]> hs
  end.

(** [c.String(code, body)] after the headers [hs]. *)
Definition cString (hs : gmap string string) (code : Z) (body : string) : Response :=
  Reply code (writeContentType "text/plain; charset=utf-8" hs) body.

(** [c.Data(code, contentType, data)] after the headers [hs]. *)
Definition cData (hs : gmap string string) (code : Z) (contentType data : string) : Response :=
  Reply code (writeContentType contentType hs) data.

Definition allowedRendition (r : string) : bool :=
  if decide (r = "1080p" ∨ r = "720p" ∨ r = "480p" ∨ r = "360p") then true else false.

Definition baseHLSPath (master : string) : string :=
  TrimSuffix master "/master.m3u8".

Definition extractBlobPath (h : Handler) (url : string) : string :=
  let relative := TrimPrefix url "/" in
  let generic :=
    if HasPrefix url "http://" || HasPrefix url "https://" then
      match SplitN url "/" 4 with
      | _ :: _ :: _ :: p :: _ => TrimPrefix (TrimPrefix p (bucket h +:+ "/")) "/"
      | _ => relative
      end
    else relative in
  if Contains url ".blob.core.windows.net/" then
    match SplitN url ".blob.core.windows.net/" 2 with
    | [_; p] => TrimPrefix (TrimPrefix p (bucket h +:+ "/")) "/"
    | _ => generic
    end
  else generic.

Definition blobBase (h : Handler) (masterURL : string) : string :=
  TrimSuffix (extractBlobPath h masterURL) "/master.m3u8".

Definition fetchURL (w : World) (url : string) : P (string + HTTPResponse) :=
  fun st => (httpGet w url, st, [EHttpGet url]).

Definition downloadBlob (h : Handler) (w : World) (path : string) : P (string + string) :=
  if s3client h then
    emit (EGetObject (bucket h) path);;
    mret (getObject w (bucket h) path)
  else
    r ← fetchURL w path;
    match r with
    | inl e => mret (inl e)
    | inr resp => mret (inr (Body resp))
    end.

(** *** The rewrite of the master manifest *)

Definition byteIn (lo hi : N) (c : ascii) : bool :=
  ((lo <=? N_of_ascii c) && (N_of_ascii c <=? hi))%N.

(** Does [s] start with [n] continuation bytes? *)
Fixpoint continuation (n : nat) (s : string) : bool :=
  match n, s with
  | 0, _ => true
  | S k, String c s' => byteIn 128 191 c && continuation k s'
  | S _, "" => false
  end.

(** The number of bytes of the first rune of [s], as the regexp engine
    reads it ([utf8.DecodeRuneInString]): a well-formed UTF-8 sequence,
    or one byte alone when there is none. *)
Definition runeWidth (s : string) : nat :=
  match s with
  | "" => 0
  | String c0 r =>
      if byteIn 0 127 c0 then 1
      else if byteIn 194 223 c0 then (if continuation 1 r then 2 else 1)
      else if byteIn 224 239 c0 then
        match r with
        | String c1 r' =>
            let lo := if byteIn 224 224 c0 then 160%N else 128%N in
            let hi := if byteIn 237 237 c0 then 159%N else 191%N in
            if byteIn lo hi c1 && continuation 1 r' then 3 else 1
        | "" => 1
        end
      else if byteIn 240 244 c0 then
        match r with
        | String c1 r' =>
            let lo := if byteIn 240 240 c0 then 144%N else 128%N in
            let hi := if byteIn 244 244 c0 then 143%N else 191%N in
            if byteIn lo hi c1 && continuation 2 r' then 4 else 1
        | "" => 1
        end
      else 1
  end.

(** The tail [/index.m3u8] of the pattern, whose dot is not escaped: it
    stands for any one rune but the line feed. *)
Definition matchTail (s : string) : bool :=
  HasPrefix s "/index"
  && (let r := GoStrings.drop 6 s in
      negb (r =? "") && negb (HasPrefix r nl)
      && (GoStrings.drop (runeWidth r) r =? "m3u8")).

(** The regexp [(?m)^(1080p|720p|480p|360p)/index.m3u8$] on one line of
    the text. *)
Definition matchLine (line : string) : bool :=
  existsb (fun label =>
             HasPrefix line label
             && matchTail (GoStrings.drop (String.length label) line))
          ["1080p"; "720p"; "480p"; "360p"].

(** The function given to [ReplaceAllStringFunc]. *)
Definition rewriteMatch (s : string) : string :=
  let parts := Split s "/" in
  GoPath.Join [List.hd "" parts; "index.m3u8"].

(** [re.ReplaceAllStringFunc(text, rewriteMatch)]: with [(?m)] the
    anchors hold at the line feeds and no rune of the pattern is one, so
    a match is a whole line. *)
Definition rewriteRenditionLines (text : string) : string :=
  GoStrings.Join
    (map (fun line => if matchLine line then rewriteMatch line else line)
         (cutAll (ascii_of_nat 10) text))
    nl.

Definition mpegurl : string := "application/vnd.apple.mpegurl".

(** *** The handlers *)

Definition GetMaster (h : Handler) (w : World) (uploadID : string) : P Response :=
  q ← queryFirst w uploadID;
  match q with
  | None => mret (cString ∅ 404 "not found")
  | Some v =>
      if HLSMasterURL v =? "" then mret (cString ∅ 400 "master not ready")
      else if negb (s3client h) then
        r ← fetchURL w (HLSMasterURL v);
        match r with
        | inl _ => log "fetch master";; mret (cString ∅ 502 "upstream error")
        | inr resp =>
            let rewritten := rewriteRenditionLines (Body resp) in
            mret (cString (setHeader "Content-Type" mpegurl ∅) 200 rewritten)
        end
      else
        let blobPath := extractBlobPath h (HLSMasterURL v) in
        r ← downloadBlob h w blobPath;
        match r with
        | inl _ => log "master download";; mret (cString ∅ 502 "blob error")
        | inr data =>
            let rewritten := rewriteRenditionLines data in
            mret (cString (setHeader "Content-Type" mpegurl ∅) 200 rewritten)
        end
  end.

Definition proxyM3U8 (w : World) (url : string) : P Response :=
  r ← fetchURL w url;
  match r with
  | inl _ => mret (cString ∅ 502 "upstream error")
  | inr resp =>
      mret (cString (setHeader "Content-Type" mpegurl ∅) (StatusCode resp) (Body resp))
  end.

Definition proxyBinary (w : World) (url : string) : P Response :=
  r ← fetchURL w url;
  match r with
  | inl _ => mret (cString ∅ 502 "upstream error")
  | inr resp =>
      let copied :=
        map_fold (fun k v hs => match v with
                                | v0 :: _ => setHeader k v0 hs
                                | [] => hs
                                end) ∅ (Header resp) in
      mret (Reply (StatusCode resp)
                  (setHeader "Cache-Control" "public, max-age=60" copied)
                  (Body resp))
  end.

Definition GetVariant (h : Handler) (w : World) (uploadID rendition : string) : P Response :=
  if negb (allowedRendition rendition) then mret (cString ∅ 400 "invalid rendition")
  else
    q ← queryFirst w uploadID;
    match q with
    | None => mret (cString ∅ 404 "not found")
    | Some v =>
        if s3client h then
          let base := blobBase h (HLSMasterURL v) in
          let blobPath := base +:+ "/" +:+ rendition +:+ "/index.m3u8" in
          r ← downloadBlob h w blobPath;
          match r with
          | inl _ => log "variant download";; mret (cString ∅ 502 "blob error")
          | inr data => mret (cString (setHeader "Content-Type" mpegurl ∅) 200 data)
          end
        else
          let base := baseHLSPath (HLSMasterURL v) in
          proxyM3U8 w (base +:+ "/" +:+ rendition +:+ "/index.m3u8")
    end.

(** The lookup that precedes the fetch of a cached resource: nil when
    there is no cache, on a miss, and when the cache store fails. *)
Definition tryCache (h : Handler) (w : World) (kind uploadID blobPath : string)
    : P (option string) :=
  if cache h then
    let cacheKey := GenerateKey kind uploadID blobPath in
    '(data, err) ← cacheGet w cacheKey;
    match err with
    | Some _ => log "cache get error";; mret data
    | None => mret data
    end
  else mret None.

(** The population of the cache after a fetch; the bytes a download
    returns are never nil. *)
Definition storeInCache (h : Handler) (w : World) (kind uploadID blobPath data : string)
    : P unit :=
  if cache h then
    let cacheKey := GenerateKey kind uploadID blobPath in
    err ← cacheSet w cacheKey data;
    match err with
    | Some _ => log "cache set error"
    | None => mret tt
    end
  else mret tt.

Definition GetSegment (h : Handler) (w : World) (uploadID rendition segment : string)
    : P Response :=
  if negb (allowedRendition rendition)
     || (negb (HasSuffix segment ".ts") && negb (HasSuffix segment ".m4s"))
  then mret (cString ∅ 400 "invalid segment")
  else
    q ← queryFirst w uploadID;
    match q with
    | None => mret (cString ∅ 404 "not found")
    | Some v =>
        if s3client h then
          let base := blobBase h (HLSMasterURL v) in
          let blobPath := base +:+ "/" +:+ rendition +:+ "/" +:+ segment in
          cached ← tryCache h w "segment" uploadID blobPath;
          fetched ← match cached with
                    | Some data => mret (inr data)
                    | None =>
                        r ← downloadBlob h w blobPath;
                        match r with
                        | inl e => log "segment download";; mret (inl e)
                        | inr data =>
                            storeInCache h w "segment" uploadID blobPath data;;
                            mret (inr data)
                        end
                    end;
          match fetched with
          | inl _ => mret (cString ∅ 502 "blob error")
          | inr data =>
              let contentType :=
                if HasSuffix segment ".m3u8" then mpegurl else "video/MP2T" in
              let hs := setHeader "Cache-Control" "public, max-age=60"
                          (setHeader "Content-Type" contentType ∅) in
              mret (cData hs 200 (default "" (hs !! "Content-Type")) data)
          end
        else
          let base := baseHLSPath (HLSMasterURL v) in
          proxyBinary w (base +:+ "/" +:+ rendition +:+ "/" +:+ segment)
    end.

Definition GetThumbnail (h : Handler) (w : World) (uploadID : string) : P Response :=
  q ← queryFirst w uploadID;
  match q with
  | None => mret (cString ∅ 404 "Video not found")
  | Some v =>
      if ThumbnailURL v =? "" then mret (cString ∅ 404 "Thumbnail not available")
      else if s3client h then
        let thumbnailPath :=
          "thumbnails/" +:+ UserID v +:+ "/" +:+ UploadID v +:+ ".jpg" in
        cached ← tryCache h w "thumbnail" uploadID thumbnailPath;
        fetched ← match cached with
                  | Some data => mret (inr data)
                  | None =>
                      r ← downloadBlob h w thumbnailPath;
                      match r with
                      | inl e => log "thumbnail download";; mret (inl e)
                      | inr data =>
                          storeInCache h w "thumbnail" uploadID thumbnailPath data;;
                          mret (inr data)
                      end
                  end;
        match fetched with
        | inl _ => mret (cString ∅ 404 "Thumbnail not found")
        | inr data =>
            let hs := setHeader "Cache-Control" "public, max-age=3600"
                        (setHeader "Content-Type" "image/jpeg" ∅) in
            mret (cData hs 200 "image/jpeg" data)
        end
      else mret (Redirect 302 (ThumbnailURL v))
  end.

End Playback.

(** ** Shapes of inputs and observations on traces *)

Module Shape.

(** The byte [c] does not occur in [s]. *)
Fixpoint noByte (c : ascii) (s : string) : bool :=
  match s with
  | "" => true
  | String a s' => negb (Ascii.eqb a c) && noByte c s'
  end.

(** A path element that [Clean] leaves alone: not empty, not [.] nor
    [..], without a slash. *)
Definition plainSegment (s : string) : bool :=
  negb (s =? "") && negb (s =? ".") && negb (s =? "..") && noByte "/" s.

(** A relative path made of plain elements, as [filepath.Rel] gives for
    a file below the root of a walk. *)
Definition cleanRel (rel : string) : bool :=
  forallb plainSegment (GoPath.components rel).

(** An effect of the transcoder that makes output visible outside the
    workspace or writes the master manifest. *)
Definition publishes (e : Transcoder.Effect) : bool :=
  match e with
  | Transcoder.EWriteFile _ _ | Transcoder.EUpload _ _ _ | Transcoder.EPublish _ => true
  | _ => false
  end.

(** No effect of the trace writes the master manifest, uploads or
    publishes. *)
Definition silent (t : list Transcoder.Effect) : Prop :=
  Forall (fun e => publishes e = false) t.

(** The number of fetches from the object store in a trace of the
    playback handler. *)
Definition isFetch (e : Playback.Effect) : bool :=
  match e with
  | Playback.EGetObject _ _ => true
  | _ => false
  end.

Definition storageFetches (t : list Playback.Effect) : nat :=
  length (List.filter isFetch t).

(** Every object the trace uploads goes to a blob path that satisfies
    [P]. *)
Definition uploadsTo (P : string → Prop) (t : list Transcoder.Effect) : Prop :=
  ∀ localPath blobPath contentType,
    Transcoder.EUpload localPath blobPath contentType ∈ t → P blobPath.

(** The blob paths of the objects a trace uploads, in order. *)
Definition uploadedPaths (t : list Transcoder.Effect) : list string :=
  omap (fun e => match e with
                 | Transcoder.EUpload _ blobPath _ => Some blobPath
                 | _ => None
                 end) t.

(** The completion events a trace publishes. *)
Definition publishedEvents (t : list Transcoder.Effect) : list Transcoder.CompletionEvent :=
  omap (fun e => match e with
                 | Transcoder.EPublish out => Some out
                 | _ => None
                 end) t.

End Shape.

(** ** The manifest the design document describes *)

Module ManifestSpec.

(** The fixed per-label table of bandwidths, in decimal. *)
Definition bandwidth (label : string) : string :=
  if decide (label = "1080p") then "5192000"
  else if decide (label = "720p") then "2928000"
  else if decide (label = "480p") then "1496000"
  else if decide (label = "360p") then "864000"
  else "0".

(** The fixed per-label table of dimensions. *)
Definition resolution (label : string) : string :=
  if decide (label = "1080p") then "1920x1080"
  else if decide (label = "720p") then "1280x720"
  else if decide (label = "480p") then "854x480"
  else if decide (label = "360p") then "640x360"
  else "".

(** One stream entry: the stream line, then the reference line
    [<label>/index.m3u8]. *)
Definition entry (label : string) : string :=
  "#EXT-X-STREAM-INF:BANDWIDTH=" +:+ bandwidth label
  +:+ ",RESOLUTION=" +:+ resolution label +:+ nl
  +:+ label +:+ "/index.m3u8" +:+ nl.

(** The header line followed by one entry per label, in order. *)
Definition manifest (ladder : list string) : string :=
  "#EXTM3U" +:+ nl +:+ fold_right (fun label rest => entry label +:+ rest) "" ladder.

Definition knownLabel (label : string) : Prop :=
  label = "1080p" ∨ label = "720p" ∨ label = "480p" ∨ label = "360p".

End ManifestSpec.

(** ** The three encodings of a stored manifest URL *)

Module URLForms.

(** The host suffix by which [extractBlobPath] knows a cloud-provider
    URL. *)
Definition cloudMarker : string := ".blob.core.windows.net/".

(** The cloud-provider form of the path [p] in [bucket]. *)
Definition cloudURL (account bucket p : string) : string :=
  "https://" +:+ account +:+ cloudMarker +:+ bucket +:+ "/" +:+ p.

(** The generic form [http(s)://host[:port]/bucket/path]. *)
Definition genericURL (scheme host bucket p : string) : string :=
  scheme +:+ host +:+ "/" +:+ bucket +:+ "/" +:+ p.

(** What both URL branches do with the part after the host. *)
Definition stripBucket (h : Playback.Handler) (p : string) : string :=
  TrimPrefix (TrimPrefix p (Playback.bucket h +:+ "/")) "/".

End URLForms.

(** ** Concrete inputs *)

Module Examples.

(** A handler in private mode, with a cache. *)
Definition privateHandler : Playback.Handler :=
  {| Playback.s3client := true;
     Playback.bucket := "processed-videos";
     Playback.cache := true |}.

(** A handler in public mode: no storage credentials. *)
Definition publicHandler : Playback.Handler :=
  {| Playback.s3client := false;
     Playback.bucket := "";
     Playback.cache := true |}.

Definition masterPath : string := "hls/u1/abc123/master.m3u8".

(** A path under a directory named after a storage host. *)
Definition mirroredPath : string := "mirror/acct.blob.core.windows.net/master.m3u8".

(** A descriptor whose manifest has not been produced yet. *)
Definition pendingVideo : Playback.Video :=
  {| Playback.UploadID := "abc123";
     Playback.UserID := "u1";
     Playback.HLSMasterURL := "";
     Playback.ThumbnailURL := "http://cdn.example/thumbnails/u1/abc123.jpg" |}.

Definition readyVideo : Playback.Video :=
  {| Playback.UploadID := "abc123";
     Playback.UserID := "u1";
     Playback.HLSMasterURL := "http://minio:9000/processed-videos/hls/u1/abc123/master.m3u8";
     Playback.ThumbnailURL := "http://minio:9000/processed-videos/thumbnails/u1/abc123.jpg" |}.

(** A catalog that holds [v] alone; the object store serves every key,
    the upstream is unreachable, and the cache store works unless
    [setFails]. *)
Definition playbackWorld (v : Playback.Video) (setFails : bool) : Playback.World :=
  {| Playback.dbFirst := fun id =>
       if id =? Playback.UploadID v then Some v else None;
     Playback.getObject := fun _ key => inr ("bytes of " +:+ key);
     Playback.httpGet := fun _ => inl "dial tcp: connection refused";
     Playback.cacheGetErr := fun _ => None;
     Playback.cacheSetErr := fun _ =>
       if setFails then Some "redis: connection refused" else None |}.

(** The event of the scenarios of the design document, for a given user. *)
Definition uploadEvent (user : string) : Transcoder.UploadEvent :=
  {| Transcoder.UploadID := "abc123";
     Transcoder.UserID := user;
     Transcoder.Username := "alice";
     Transcoder.OriginalName := "holiday.mp4";
     Transcoder.Title := "Holiday";
     Transcoder.Description := "";
     Transcoder.Tags := ["travel"];
     Transcoder.IsPrivate := false;
     Transcoder.Category := "vlog";
     Transcoder.RawVideoPath := "raw/abc123.mp4";
     Transcoder.ContainerName := "";
     Transcoder.BlobURL := "";
     Transcoder.Resolutions := ["720p"; "360p"] |}.

(** What the walk finds under the output root once both renditions and
    the master manifest are written, in lexical order. *)
Definition hlsTree : list Transcoder.WalkEntry :=
  [Transcoder.WalkDirectory ".";
   Transcoder.WalkDirectory "360p";
   Transcoder.WalkFile "360p/index.m3u8";
   Transcoder.WalkFile "360p/seg_000.ts";
   Transcoder.WalkDirectory "720p";
   Transcoder.WalkFile "720p/index.m3u8";
   Transcoder.WalkFile "720p/seg_000.ts";
   Transcoder.WalkFile "master.m3u8"].

(** A job attempt on [evt] in which every collaborator works, but the
    encoder on the rendition of index [failing], if any, and the
    extraction of the thumbnail if [thumbFails]. *)
Definition jobWorld (evt : Transcoder.UploadEvent) (failing : option nat)
    (thumbFails : bool) : Transcoder.World :=
  {| Transcoder.getenv := fun name =>
       if name =? "MINIO_PUBLIC_BASE" then "http://cdn.example/processed-videos" else "";
     Transcoder.readSecret := fun _ => None;
     Transcoder.tempDir := "/tmp";
     Transcoder.unmarshal := fun _ => inr evt;
     Transcoder.mkdirAll := fun _ => None;
     Transcoder.downloadTo := fun _ _ => None;
     Transcoder.runEncoder := fun k _ =>
       if decide (failing = Some k) then Some "exit status 1" else None;
     Transcoder.writeFile := fun _ _ => None;
     Transcoder.walkDir := fun _ => hlsTree;
     Transcoder.uploadFile := fun _ _ => None;
     Transcoder.runThumbnail := if thumbFails then Some "exit status 1" else None;
     Transcoder.publishJSON := fun _ => None;
     Transcoder.mimeTypeByExtension := fun _ => "" |}.

(** A master manifest whose second reference line has an underscore
    where the file name [index.m3u8] has its dot. *)
Definition oddManifest : string :=
  "#EXTM3U" +:+ nl
  +:+ "#EXT-X-STREAM-INF:BANDWIDTH=2928000,RESOLUTION=1280x720" +:+ nl
  +:+ "720p/index.m3u8" +:+ nl
  +:+ "#EXT-X-STREAM-INF:BANDWIDTH=864000,RESOLUTION=640x360" +:+ nl
  +:+ "360p/index_m3u8" +:+ nl.

(** The catalog holds [readyVideo]; the object store and the upstream
    both serve [body] for every key and URL. *)
Definition servingWorld (body : string) : Playback.World :=
  {| Playback.dbFirst := fun id =>
       if id =? "abc123" then Some readyVideo else None;
     Playback.getObject := fun _ _ => inr body;
     Playback.httpGet := fun _ =>
       inr {| Playback.StatusCode := 200; Playback.Header := ∅; Playback.Body := body |};
     Playback.cacheGetErr := fun _ => None;
     Playback.cacheSetErr := fun _ => None |}.

End Examples.

(** ** Observations on the segment cache *)

Module CacheSpec.

(** The blob path of a segment of the video [v]. *)
Definition segmentBlobPath (h : Playback.Handler) (v : Playback.Video)
    (rendition segment : string) : string :=
  Playback.blobBase h (Playback.HLSMasterURL v) +:+ "/" +:+ rendition +:+ "/" +:+ segment.

Definition segmentKey (h : Playback.Handler) (v : Playback.Video)
    (uploadID rendition segment : string) : Playback.CacheKey :=
  Playback.GenerateKey "segment" uploadID (segmentBlobPath h v rendition segment).

(** The response carries the bytes [data] with status 200. *)
Definition served (r : Playback.Response) (data : string) : Prop :=
  Playback.statusOf r = 200%Z ∧ Playback.bodyOf r = data.

(** The log line of a cache call that failed. *)
Definition logIfFailed (err : option string) (msg : string) : list Playback.Effect :=
  match err with
  | Some _ => [Playback.ELog msg]
  | None => []
  end.

End CacheSpec.

(** ** Observations on the trace of a job attempt *)

Module JobTrace.



(** The effect leaves the workspace in place. *)
Definition keepsWorkspace (e : Transcoder.Effect) : bool :=
  match e with
  | Transcoder.ERemoveAll _ => false
  | _ => true
  end.

(** The effect reaches neither the object store nor the broker. *)
Definition isLocal (e : Transcoder.Effect) : bool :=
  match e with
  | Transcoder.EDownload _ _ | Transcoder.EUpload _ _ _ | Transcoder.EPublish _ => false
  | _ => true
  end.

(** The endpoint and the port [buildAzureURL] falls back on: the mounted
    secret, then the environment. *)
Definition endpointOf (w : Transcoder.World) : string :=
  let endpoint :=
    Transcoder.getSecret w "/mnt/secrets-store/minio-endpoint" "MINIO_ENDPOINT" in
  if endpoint =? "" then Transcoder.getenv w "MINIO_ENDPOINT" else endpoint.

Definition portOf (w : Transcoder.World) : string :=
  let port := Transcoder.getSecret w "/mnt/secrets-store/minio-port" "MINIO_PORT" in
  if port =? "" then Transcoder.getenv w "MINIO_PORT" else port.

(** The completion event of [evt], as [Handle] assembles it from the two
    URLs. *)
Definition completionOf (evt : Transcoder.UploadEvent) (masterUrl thumbnailURL : string)
    : Transcoder.CompletionEvent :=
  {| Transcoder.uploadId := Transcoder.UploadID evt;
     Transcoder.userId := Transcoder.UserID evt;
     Transcoder.title := Transcoder.Title evt;
     Transcoder.description := Transcoder.Description evt;
     Transcoder.tags := Transcoder.Tags evt;
     Transcoder.category := Transcoder.Category evt;
     Transcoder.isPrivate := Transcoder.IsPrivate evt;
     Transcoder.originalFilename := Transcoder.OriginalName evt;
     Transcoder.rawVideoPath := Transcoder.RawVideoPath evt;
     Transcoder.hlsMasterUrl := masterUrl;
     Transcoder.thumbnailUrl := thumbnailURL;
     Transcoder.ready := true |}.




End JobTrace.

(** ** Observations on the trace of a playback request *)

Module PlaybackTrace.

(** The effect reads or writes the cache store. *)
Definition touchesCache (e : Playback.Effect) : bool :=
  match e with
  | Playback.ECacheGet _ | Playback.ECacheSet _ _ => true
  | _ => false
  end.

(** The effect writes the cache store. *)
Definition writesCache (e : Playback.Effect) : bool :=
  match e with
  | Playback.ECacheSet _ _ => true
  | _ => false
  end.

(** The effect fetches from the object store or from the upstream. *)
Definition isRemoteFetch (e : Playback.Effect) : bool :=
  match e with
  | Playback.EGetObject _ _ | Playback.EHttpGet _ => true
  | _ => false
  end.

(** What [proxyBinary] relays of an upstream header: its first value,
    unless it is empty. *)
Definition relayed (values : option (list string)) : option string :=
  match values with
  | Some (v0 :: _) => if v0 =? "" then None else Some v0
  | _ => None
  end.

(** The headers of a response; a redirect is taken to have none. *)
Definition headersOf (r : Playback.Response) : gmap string string :=
  match r with
  | Playback.Reply _ hs _ => hs
  | Playback.Redirect _ _ => ∅
  end.

(** The blob path of the thumbnail of the video [v]. *)
Definition thumbnailBlobPath (v : Playback.Video) : string :=
  "thumbnails/" +:+ Playback.UserID v +:+ "/" +:+ Playback.UploadID v +:+ ".jpg".

End PlaybackTrace.

(** ** Deleting blobs: the storage client and the adapter of the catalog *)

Module BlobStore.

(** A page of a listing: the keys of its objects (a key is a pointer in
    the SDK and may be nil), or the error of [NextPage]. *)
Definition Page : Type := string + list (option string).

(** The requests sent to the object store. *)
Inductive Effect :=
| EListPage (bucket prefix : string)
| EDeleteObject (bucket key : string)
| EDeleteObjects (bucket : string) (objects : list (option string))
| EHeadObject (bucket key : string).

(** The object store as the two clients see it: [listPages] gives the
    answers of the paginator to the successive calls of [NextPage] for
    one listing ([HasMorePages] holds as long as answers are left),
    the other fields the error of a request, if any. *)
Record World := {
  listPages : string → string → list Page;
  deleteObject : string → string → option string;
  deleteObjects : string → list (option string) → option string;
  headObject : string → string → option string
}.

(** *** The storage client of the transcoder *)

Record S3Client := {
  rawBucket : string;
  processedBucket : string
}.

Definition DeleteBlob (c : S3Client) (w : World) (blobPath : string)
    : list Effect * option string :=
  ([EDeleteObject (processedBucket c) blobPath],
   deleteObject w (processedBucket c) blobPath).

(** The inner loop of [DeleteBlobsWithPrefix] over the objects of one
    page. *)
Fixpoint deleteContents (c : S3Client) (w : World) (contents : list (option string))
    : list Effect * option string :=
  match contents with
  | [] => ([], None)
  | None :: rest => deleteContents c w rest
  | Some key :: rest =>
      let '(t, err) := DeleteBlob c w key in
      match err with
      | Some e => (t, Some ("failed to delete object " +:+ key +:+ ": " +:+ e))
      | None => let '(t', r) := deleteContents c w rest in ((t ++ t')%list, r)
      end
  end.

(** The outer loop, over the pages. *)
Fixpoint deletePages (c : S3Client) (w : World) (prefix : string) (pages : list Page)
    : list Effect * option string :=
  match pages with
  | [] => ([], None)
  | inl e :: _ =>
      ([EListPage (processedBucket c) prefix],
       Some ("failed to list objects with prefix " +:+ prefix +:+ ": " +:+ e))
  | inr contents :: rest =>
      let '(t, r) := deleteContents c w contents in
      match r with
      | Some e => (EListPage (processedBucket c) prefix :: t, Some e)
      | None =>
          let '(t', r') := deletePages c w prefix rest in
          ((EListPage (processedBucket c) prefix :: t ++ t')%list, r')
      end
  end.

Definition DeleteBlobsWithPrefix (c : S3Client) (w : World) (prefix : string)
    : list Effect * option string :=
  deletePages c w prefix (listPages w (processedBucket c) prefix).

(** [BlobExists]: the answer and the error. *)
Definition BlobExists (c : S3Client) (w : World) (blobPath : string)
    : list Effect * (bool * option string) :=
  ([EHeadObject (processedBucket c) blobPath],
   match headObject w (processedBucket c) blobPath with
   | Some e => if Contains e "NotFound" then (false, None) else (false, Some e)
   | None => (true, None)
   end).

(** *** The adapter of the catalog service

    Its methods take the bucket as an argument; the method names are
    those of the source, in a name space of their own. *)

Module Adapter.

Definition DeleteBlob (w : World) (bucket blobPath : string)
    : list Effect * option string :=
  ([EDeleteObject bucket blobPath], deleteObject w bucket blobPath).

(** The loop that gathers the objects of all pages in
    [objectsToDelete]. *)
Fixpoint collectPages (bucket prefix : string) (pages : list Page)
    (objectsToDelete : list (option string))
    : list Effect * (string + list (option string)) :=
  match pages with
  | [] => ([], inr objectsToDelete)
  | inl e :: _ =>
      ([EListPage bucket prefix],
       inl ("failed to list objects with prefix " +:+ prefix +:+ ": " +:+ e))
  | inr contents :: rest =>
      let '(t, r) := collectPages bucket prefix rest (objectsToDelete ++ contents)%list in
      (EListPage bucket prefix :: t, r)
  end.

Definition DeleteBlobsWithPrefix (w : World) (bucket prefix : string)
    : list Effect * option string :=
  let '(t, r) := collectPages bucket prefix (listPages w bucket prefix) [] in
  match r with
  | inl e => (t, Some e)
  | inr objectsToDelete =>
      if (length objectsToDelete =? 0)%nat then (t, None)
      else ((t ++ [EDeleteObjects bucket objectsToDelete])%list,
            deleteObjects w bucket objectsToDelete)
  end.

Definition BlobExists (w : World) (bucket blobPath : string)
    : list Effect * (bool * option string) :=
  ([EHeadObject bucket blobPath],
   match headObject w bucket blobPath with
   | Some e => if Contains e "NotFound" then (false, None) else (false, Some e)
   | None => (true, None)
   end).

End Adapter.

(** *** Observations on a trace *)

(** The keys deleted one by one, in order. *)
Definition deletedKeys (t : list Effect) : list string :=
  omap (fun e => match e with
                 | EDeleteObject _ key => Some key
                 | _ => None
                 end) t.

(** The batches handed to [DeleteObjects], in order. *)
Definition batches (t : list Effect) : list (list (option string)) :=
  omap (fun e => match e with
                 | EDeleteObjects _ objects => Some objects
                 | _ => None
                 end) t.

(** The number of pages asked for. *)
Definition pagesAsked (t : list Effect) : nat :=
  length (List.filter (fun e => match e with EListPage _ _ => true | _ => false end) t).

(** The objects of the pages of a listing, and those with a key. *)
Definition listedObjects (pages : list Page) : list (option string) :=
  flat_map (fun page => match page with
                        | inr contents => contents
                        | inl _ => []
                        end) pages.

Definition listedKeys (pages : list Page) : list string :=
  omap id (listedObjects pages).

(** Every page of the listing was delivered. *)
Definition delivered (pages : list Page) : bool :=
  forallb (fun page => match page with inr _ => true | inl _ => false end) pages.

End BlobStore.

(** ** Catalog: the deletion of a video *)

Module Catalog.

(** The columns of [models.Video] that [DeleteVideoCompletely] reads. *)
Record Video := {
  UploadID : string;
  UserID : string;
  Title : string;
  RawVideoPath : string
}.

Record VideoDeleteService := {
  rawBucket : string;
  processedBucket : string
}.

(** The outcome of [db.First]. *)
Inductive FirstResult :=
| Found (video : Video)
| ErrRecordNotFound
| ErrOther (e : string).

(** The calls on the database and on the [StorageClient], and the log
    lines. *)
Inductive Effect :=
| EFirst (videoID : nat)
| EDeleteBlob (bucket blobPath : string)
| EDeleteBlobsWithPrefix (bucket prefix : string)
| EDelete (video : Video)
| ELog (level msg : string).

(** The database and the storage client behind the [StorageClient]
    interface: each call gives its error, if any. *)
Record World := {
  dbFirst : nat → FirstResult;
  dbDelete : Video → option string;
  storageDeleteBlob : string → string → option string;
  storageDeleteBlobsWithPrefix : string → string → option string
}.

(** Step 1: the raw video file. *)
Definition deleteRaw (s : VideoDeleteService) (w : World) (video : Video) : list Effect :=
  if RawVideoPath video =? "" then []
  else
    EDeleteBlob (rawBucket s) (RawVideoPath video) ::
    match storageDeleteBlob w (rawBucket s) (RawVideoPath video) with
    | Some _ => [ELog "warn" "Failed to delete raw video file (continuing)"]
    | None => [ELog "info" "Deleted raw video"]
    end.

(** Step 2: the HLS files. *)
Definition deleteHLS (s : VideoDeleteService) (w : World) (video : Video) : list Effect :=
  let hlsPrefix := "hls/" +:+ UserID video +:+ "/" +:+ UploadID video +:+ "/" in
  EDeleteBlobsWithPrefix (processedBucket s) hlsPrefix ::
  match storageDeleteBlobsWithPrefix w (processedBucket s) hlsPrefix with
  | Some _ => [ELog "warn" "Failed to delete HLS files with prefix (continuing)"]
  | None => [ELog "info" "Deleted HLS files"]
  end.

(** Step 3: the thumbnail. *)
Definition deleteThumbnail (s : VideoDeleteService) (w : World) (video : Video)
    : list Effect :=
  let thumbnailPath :=
    "thumbnails/" +:+ UserID video +:+ "/" +:+ UploadID video +:+ ".jpg" in
  EDeleteBlob (processedBucket s) thumbnailPath ::
  match storageDeleteBlob w (processedBucket s) thumbnailPath with
  | Some _ => [ELog "warn" "Failed to delete thumbnail file (continuing)"]
  | None => [ELog "info" "Deleted thumbnail"]
  end.

Definition DeleteVideoCompletely (s : VideoDeleteService) (w : World) (videoID : nat)
    : list Effect * option string :=
  match dbFirst w videoID with
  | ErrRecordNotFound => ([EFirst videoID], Some "video not found")
  | ErrOther e =>
      ([EFirst videoID; ELog "error" "Failed to get video for deletion"],
       Some ("failed to get video: " +:+ e))
  | Found video =>
      let cleanup :=
        ([EFirst videoID; ELog "info" "Starting complete video deletion"]
         ++ deleteRaw s w video ++ deleteHLS s w video ++ deleteThumbnail s w video
         ++ [ELog "info" "Storage cleanup completed"; EDelete video])%list in
      match dbDelete w video with
      | Some e =>
          ((cleanup ++ [ELog "error" "Failed to delete video from database"])%list,
           Some ("failed to delete video from database: " +:+ e))
      | None => ((cleanup ++ [ELog "info" "Video completely deleted"])%list, None)
      end
  end.

(** The loop of [extractHLSPrefix] over the parts of the URL, at the
    part [part] followed by [rest]: the test [i+2 < len(parts)] holds
    when two parts follow. *)
Fixpoint findHLS (parts : list string) : option string :=
  match parts with
  | [] => None
  | part :: rest =>
      match rest with
      | next1 :: next2 :: _ =>
          if part =? "hls" then Some (GoPath.Join ["hls"; next1; next2])
          else findHLS rest
      | _ => findHLS rest
      end
  end.

Definition extractHLSPrefix (masterURL userID uploadID : string) : string :=
  if masterURL =? "" then ""
  else match findHLS (Split masterURL "/") with
       | Some p => p
       | None => "hls/" +:+ userID +:+ "/" +:+ uploadID
       end.

(** The storage requests of a trace. *)
Definition prefixesDeleted (t : list Effect) : list (string * string) :=
  omap (fun e => match e with
                 | EDeleteBlobsWithPrefix bucket prefix => Some (bucket, prefix)
                 | _ => None
                 end) t.

Definition blobsDeleted (t : list Effect) : list (string * string) :=
  omap (fun e => match e with
                 | EDeleteBlob bucket blobPath => Some (bucket, blobPath)
                 | _ => None
                 end) t.

Definition rowsDeleted (t : list Effect) : list Video :=
  omap (fun e => match e with
                 | EDelete video => Some video
                 | _ => None
                 end) t.

End Catalog.

(** ** Concrete inputs for the deletions *)

Module DeletionExamples.

Definition client : BlobStore.S3Client :=
  {| BlobStore.rawBucket := "raw-videos"; BlobStore.processedBucket := "processed-videos" |}.

(** An object store whose listing delivers one page and then fails;
    every deletion succeeds. *)
Definition brokenListing : BlobStore.World :=
  {| BlobStore.listPages := fun _ _ =>
       [inr [Some "hls/u1/abc123/master.m3u8"; None; Some "hls/u1/abc123/720p/index.m3u8"];
        inl "timeout";
        inr [Some "hls/u1/abc123/720p/seg_000.ts"]];
     BlobStore.deleteObject := fun _ _ => None;
     BlobStore.deleteObjects := fun _ _ => None;
     BlobStore.headObject := fun _ _ => None |}.

Definition service : Catalog.VideoDeleteService :=
  {| Catalog.rawBucket := "raw-videos"; Catalog.processedBucket := "processed-videos" |}.

Definition storedVideo : Catalog.Video :=
  {| Catalog.UploadID := "abc123";
     Catalog.UserID := "u1";
     Catalog.Title := "Holiday";
     Catalog.RawVideoPath := "raw/abc123.mp4" |}.

(** A catalog whose storage client fails on every request. *)
Definition catalogWorld : Catalog.World :=
  {| Catalog.dbFirst := fun videoID =>
       if (videoID =? 7)%nat then Catalog.Found storedVideo else Catalog.ErrRecordNotFound;
     Catalog.dbDelete := fun _ => None;
     Catalog.storageDeleteBlob := fun _ _ => Some "unreachable";
     Catalog.storageDeleteBlobsWithPrefix := fun _ _ => Some "unreachable" |}.
(** An object store whose listing delivers two pages; every deletion
    succeeds. *)
Definition wholeListing : BlobStore.World :=
  {| BlobStore.listPages := fun _ _ =>
       [inr [Some "hls/u1/abc123/master.m3u8"; None; Some "hls/u1/abc123/720p/index.m3u8"];
        inr [Some "hls/u1/abc123/720p/seg_000.ts"]];
     BlobStore.deleteObject := fun _ _ => None;
     BlobStore.deleteObjects := fun _ _ => None;
     BlobStore.headObject := fun _ _ => None |}.

End DeletionExamples.

(** ** The constructors: what the services read from the environment *)

Module Setup.

(** [NewS3ClientFromEnv] of the transcoder.  [loadConfig] is the error
    of [config.LoadDefaultConfig], if any; of the client the model keeps
    the two buckets. *)
Definition NewS3ClientFromEnv (w : Transcoder.World) (loadConfig : option string)
    : string + BlobStore.S3Client :=
  let rawBucket := Transcoder.getenv w "MINIO_RAW_BUCKET" in
  let rawBucket := if rawBucket =? "" then "raw-videos" else rawBucket in
  let processedBucket := Transcoder.getenv w "MINIO_PROCESSED_BUCKET" in
  let processedBucket :=
    if processedBucket =? "" then "processed-videos" else processedBucket in
  match loadConfig with
  | Some err => inl err
  | None =>
      inr {| BlobStore.rawBucket := rawBucket;
             BlobStore.processedBucket := processedBucket |}
  end.

(** [NewVideoDeleteService] of the catalog. *)
Definition NewVideoDeleteService (w : Transcoder.World) : Catalog.VideoDeleteService :=
  {| Catalog.rawBucket := Transcoder.getenv w "MINIO_RAW_BUCKET";
     Catalog.processedBucket := Transcoder.getenv w "MINIO_PROCESSED_BUCKET" |}.

(** [NewHandler] of the playback service, whose helper [getSecret] is
    the one of the transcoder, word for word.  [cacheService] tells
    whether [cache.NewCacheService] succeeded, [loadConfig] is the error
    of [config.LoadDefaultConfig], if any. *)
Definition NewHandler (w : Transcoder.World) (cacheService : bool)
    (loadConfig : option string) : Playback.Handler :=
  let endpoint :=
    Transcoder.getSecret w "/mnt/secrets-store/minio-endpoint" "MINIO_ENDPOINT" in
  let access :=
    Transcoder.getSecret w "/mnt/secrets-store/minio-access-key" "MINIO_ACCESS_KEY" in
  let secret :=
    Transcoder.getSecret w "/mnt/secrets-store/minio-secret-key" "MINIO_SECRET_KEY" in
  let bucket :=
    Transcoder.getSecret w "/mnt/secrets-store/minio-processed-bucket"
      "MINIO_PROCESSED_BUCKET" in
  let bucket := if bucket =? "" then Transcoder.getenv w "MINIO_RAW_BUCKET" else bucket in
  let public :=
    {| Playback.s3client := false; Playback.bucket := ""; Playback.cache := cacheService |} in
  if negb (endpoint =? "") && negb (access =? "") && negb (secret =? "") then
    match loadConfig with
    | Some _ => public
    | None =>
        let bucket := if bucket =? "" then "raw-videos" else bucket in
        {| Playback.s3client := true;
           Playback.bucket := bucket;
           Playback.cache := cacheService |}
    end
  else public.

(** A deployment with the endpoint and the credentials in the
    environment, no mounted secret, and [processed] as
    [MINIO_PROCESSED_BUCKET]. *)
Definition deployment (processed : string) : Transcoder.World :=
  let base := Examples.jobWorld (Examples.uploadEvent "u1") None false in
  {| Transcoder.getenv := fun name =>
       if name =? "MINIO_ENDPOINT" then "minio"
       else if name =? "MINIO_ACCESS_KEY" then "key"
       else if name =? "MINIO_SECRET_KEY" then "secret"
       else if name =? "MINIO_PROCESSED_BUCKET" then processed
       else "";
     Transcoder.readSecret := fun _ => None;
     Transcoder.tempDir := Transcoder.tempDir base;
     Transcoder.unmarshal := Transcoder.unmarshal base;
     Transcoder.mkdirAll := Transcoder.mkdirAll base;
     Transcoder.downloadTo := Transcoder.downloadTo base;
     Transcoder.runEncoder := Transcoder.runEncoder base;
     Transcoder.writeFile := Transcoder.writeFile base;
     Transcoder.walkDir := Transcoder.walkDir base;
     Transcoder.uploadFile := Transcoder.uploadFile base;
     Transcoder.runThumbnail := Transcoder.runThumbnail base;
     Transcoder.publishJSON := Transcoder.publishJSON base;
     Transcoder.mimeTypeByExtension := Transcoder.mimeTypeByExtension base |}.

End Setup.

(** * Properties *)

(** ** Strings *)

#[local] Arguments String.append !_ _ / : simpl nomatch.

Section StringFacts.

Lemma app_assoc_s (a b c : string) : (a +:+ b) +:+ c = a +:+ (b +:+ c).
Proof. induction a as [|x a IH]; simpl; [reflexivity | now rewrite IH]. Qed.

Lemma app_nil_r_s (a : string) : a +:+ "" = a.
Proof. induction a as [|x a IH]; simpl; [reflexivity | now rewrite IH]. Qed.

Lemma prefix_app (p s : string) : String.prefix p (p +:+ s) = true.
Proof.
  induction p as [|x p IH]; simpl; [now destruct s |].
  destruct (ascii_dec x x); [exact IH | congruence].
Qed.

Lemma drop_app (p s : string) : GoStrings.drop (String.length p) (p +:+ s) = s.
Proof. induction p as [|x p IH]; simpl; [reflexivity | exact IH]. Qed.

Lemma take_app (p s : string) : take (String.length p) (p +:+ s) = p.
Proof.
  unfold take. induction p as [|x p IH]; simpl.
  - now destruct s.
  - now rewrite IH.
Qed.

Lemma TrimPrefix_app (p s : string) : TrimPrefix (p +:+ s) p = s.
Proof. unfold TrimPrefix, HasPrefix. rewrite prefix_app. apply drop_app. Qed.

Lemma TrimPrefix_none (p s : string) : HasPrefix s p = false → TrimPrefix s p = s.
Proof. unfold TrimPrefix. now intros ->. Qed.

Lemma prefix_head_ne (c a : ascii) (p s : string) :
  Ascii.eqb a c = false → String.prefix (String c p) (String a s) = false.
Proof.
  intros Hne. simpl. destruct (ascii_dec c a) as [->|]; [|reflexivity].
  now rewrite Ascii.eqb_refl in Hne.
Qed.

(** The first occurrence of a separator lies after any text that does
    not hold its first byte. *)
Lemma Index_skip (c : ascii) (sep' pre rest : string) :
  Shape.noByte c pre = true →
  Index (pre +:+ String c sep' +:+ rest) (String c sep') = Some (String.length pre).
Proof.
  induction pre as [|a pre IH]; intros Hno.
  - change ("" +:+ String c sep' +:+ rest) with (String c (sep' +:+ rest)).
    cbn [Index String.length]. unfold HasPrefix.
    change (String c (sep' +:+ rest)) with (String c sep' +:+ rest).
    now rewrite prefix_app.
  - cbn [Shape.noByte] in Hno. apply andb_true_iff in Hno as [Ha Hno].
    apply negb_true_iff in Ha.
    change (String a pre +:+ String c sep' +:+ rest)
      with (String a (pre +:+ String c sep' +:+ rest)).
    cbn [Index String.length]. unfold HasPrefix at 1.
    rewrite (prefix_head_ne _ _ _ _ Ha).
    now rewrite (IH Hno).
Qed.

Lemma Contains_true (s sep : string) (m : nat) :
  Index s sep = Some m → Contains s sep = true.
Proof. intros H. unfold Contains. rewrite H. now apply bool_decide_eq_true. Qed.

Lemma Contains_false (s sep : string) : Contains s sep = false → Index s sep = None.
Proof.
  unfold Contains. intros H. apply bool_decide_eq_false in H.
  destruct (Index s sep); [exfalso; apply H; eauto | reflexivity].
Qed.

(** One cut of [SplitN]. *)
Lemma genSplit_cut (k : nat) (c : ascii) (sep' pre rest : string) :
  Shape.noByte c pre = true →
  genSplit (S k) (pre +:+ String c sep' +:+ rest) (String c sep')
  = pre :: genSplit k rest (String c sep').
Proof.
  intros Hno. cbn [genSplit]. rewrite (Index_skip _ _ _ _ Hno).
  rewrite take_app. f_equal.
  replace (String.length pre + String.length (String c sep'))
    with (String.length (pre +:+ String c sep')).
  - now rewrite <- app_assoc_s, drop_app.
  - clear. induction pre as [|a pre IH]; simpl; [reflexivity | now rewrite IH].
Qed.

End StringFacts.

(** ** Paths *)

Section PathFacts.

Import Shape.

Lemma cutAll_nonempty (c : ascii) (s : string) : cutAll c s ≠ [].
Proof.
  destruct s as [|a s]; cbn [cutAll]; [discriminate |].
  destruct (Ascii.eqb a c); [discriminate |].
  destruct (cutAll c s); discriminate.
Qed.

Lemma cutAll_noByte (c : ascii) (x : string) : noByte c x = true → cutAll c x = [x].
Proof.
  induction x as [|a x IH]; cbn [noByte cutAll]; [reflexivity |].
  intros H. apply andb_true_iff in H as [Ha Hx]. apply negb_true_iff in Ha.
  now rewrite Ha, (IH Hx).
Qed.

Lemma cutAll_app (c : ascii) (x y : string) :
  noByte c x = true → cutAll c (x +:+ String c y) = x :: cutAll c y.
Proof.
  induction x as [|a x IH]; cbn [noByte cutAll String.append].
  - intros _. now rewrite Ascii.eqb_refl.
  - intros H. apply andb_true_iff in H as [Ha Hx]. apply negb_true_iff in Ha.
    now rewrite Ha, (IH Hx).
Qed.

Lemma Join_cons (e : string) (es : list string) (sep : string) :
  es ≠ [] → GoStrings.Join (e :: es) sep = e +:+ sep +:+ GoStrings.Join es sep.
Proof. destruct es; [congruence | reflexivity]. Qed.

Lemma Join_head (a : ascii) (p : string) (ps : list string) (sep : string) :
  GoStrings.Join (String a p :: ps) sep = String a (GoStrings.Join (p :: ps) sep).
Proof. destruct ps; reflexivity. Qed.

(** Cutting a string at a byte and joining the pieces with that byte
    gives the string back. *)
Lemma Join_cutAll (c : ascii) (s : string) :
  GoStrings.Join (cutAll c s) (String c "") = s.
Proof.
  induction s as [|a s IH]; cbn [cutAll]; [reflexivity |].
  destruct (Ascii.eqb a c) eqn:Ha.
  - apply Ascii.eqb_eq in Ha as ->.
    rewrite Join_cons by apply cutAll_nonempty. now rewrite IH.
  - destruct (cutAll c s) as [|p ps] eqn:Hc; [now apply cutAll_nonempty in Hc |].
    now rewrite Join_head, IH.
Qed.

Lemma plainSegment_inv (s : string) :
  plainSegment s = true →
  (s =? "") = false ∧ (s =? ".") = false ∧ (s =? "..") = false ∧ noByte "/" s = true.
Proof.
  unfold plainSegment. rewrite !andb_true_iff, !negb_true_iff. tauto.
Qed.

Lemma components_Join (segs : list string) :
  segs ≠ [] → forallb plainSegment segs = true →
  GoPath.components (GoStrings.Join segs "/") = segs.
Proof.
  unfold GoPath.components, GoPath.slash.
  induction segs as [|e es IH]; [congruence |]. intros _ Hall.
  cbn [forallb] in Hall. apply andb_true_iff in Hall as [He Hes].
  apply plainSegment_inv in He as (_ & _ & _ & He).
  destruct es as [|e' es].
  - now apply cutAll_noByte.
  - rewrite Join_cons by discriminate.
    change (e +:+ "/" +:+ GoStrings.Join (e' :: es) "/")
      with (e +:+ String "/" (GoStrings.Join (e' :: es) "/")).
    rewrite (cutAll_app _ _ _ He). f_equal. now apply IH.
Qed.

Lemma cleanStep_plain (rooted : bool) (out : list string) (c : string) :
  plainSegment c = true → GoPath.cleanStep rooted out c = c :: out.
Proof.
  intros H. apply plainSegment_inv in H as (H0 & H1 & H2 & _).
  unfold GoPath.cleanStep. now rewrite H0, H1, H2.
Qed.

Lemma fold_cleanStep_plain (rooted : bool) (segs out : list string) :
  forallb plainSegment segs = true →
  fold_left (GoPath.cleanStep rooted) segs out = (rev segs ++ out)%list.
Proof.
  revert out. induction segs as [|e es IH]; intros out Hall; [reflexivity |].
  cbn [forallb] in Hall. apply andb_true_iff in Hall as [He Hes].
  cbn [fold_left rev]. rewrite (cleanStep_plain _ _ _ He), (IH _ Hes).
  now rewrite <- app_assoc.
Qed.

(** [Clean] leaves a relative path of plain elements as it is. *)
Lemma Clean_plain (segs : list string) :
  segs ≠ [] → forallb plainSegment segs = true →
  GoPath.Clean (GoStrings.Join segs "/") = GoStrings.Join segs "/".
Proof.
  intros Hne Hall. unfold GoPath.Clean.
  rewrite (components_Join _ Hne Hall), (fold_cleanStep_plain _ _ _ Hall).
  rewrite app_nil_r, rev_involutive.
  destruct segs as [|e es]; [congruence |].
  cbn [forallb] in Hall. apply andb_true_iff in Hall as [He _].
  apply plainSegment_inv in He as (He0 & _ & _ & Hes).
  destruct e as [|a e]; [discriminate |].
  rewrite Join_head. cbn [String.eqb].
  cbn [noByte] in Hes. apply andb_true_iff in Hes as [Ha _].
  apply negb_true_iff in Ha.
  unfold HasPrefix. rewrite (prefix_head_ne "/" a "" _ Ha). reflexivity.
Qed.

End PathFacts.

(** ** The master manifest *)

Section MasterManifest.

Lemma entry_of_known_label (label s : string) :
  ManifestSpec.knownLabel label →
  Master.appendEntry s label = s +:+ ManifestSpec.entry label.
Proof.
  intros [-> | [-> | [-> | ->]]]; unfold Master.appendEntry;
    rewrite app_assoc_s; f_equal; vm_compute; reflexivity.
Qed.

Lemma fold_appendEntry (ladder : list string) (s : string) :
  Forall ManifestSpec.knownLabel ladder →
  fold_left Master.appendEntry ladder s
  = s +:+ fold_right (fun label rest => ManifestSpec.entry label +:+ rest) "" ladder.
Proof.
  intros Hall. revert s.
  induction Hall as [|label ladder Hl _ IH]; intros s; cbn [fold_left fold_right].
  - now rewrite app_nil_r_s.
  - rewrite IH, (entry_of_known_label _ _ Hl). apply app_assoc_s.
Qed.

(** C1 (amended): for every non-empty ladder whose labels are among
    1080p, 720p, 480p and 360p, in any order, [buildMaster] gives the
    header line followed by exactly one stream entry per label of the
    ladder, in the order of the ladder, each entry with the bandwidth of
    the fixed table and followed by the line [<label>/index.m3u8]. *)
Theorem buildMaster_lists_ladder (userId uploadId : string) (ladder : list string) :
  ladder ≠ [] →
  Forall ManifestSpec.knownLabel ladder →
  Master.buildMaster userId uploadId ladder = ManifestSpec.manifest ladder.
Proof.
  intros Hne Hall. unfold Master.buildMaster, ManifestSpec.manifest.
  destruct ladder as [|label ladder]; [congruence |].
  cbn [length Nat.eqb]. rewrite (fold_appendEntry _ _ Hall). apply app_assoc_s.
Qed.

Lemma buildMaster_lists_ladder_witness :
  Master.buildMaster "u1" "abc123" ["720p"; "360p"]
  = ManifestSpec.manifest ["720p"; "360p"].
Proof.
  apply (buildMaster_lists_ladder "u1" "abc123" ["720p"; "360p"]).
  - discriminate.
  - repeat constructor; unfold ManifestSpec.knownLabel; tauto.
Defined.

(** C1 as stated fails on the empty ladder, which is a subset of the
    four labels: [buildMaster] replaces it by the canonical ladder and
    lists four entries where the claim announces none. *)
Lemma buildMaster_empty_ladder :
  Forall ManifestSpec.knownLabel []
  ∧ Master.buildMaster "u1" "abc123" [] = ManifestSpec.manifest ["1080p"; "720p"; "480p"; "360p"]
  ∧ Master.buildMaster "u1" "abc123" [] ≠ ManifestSpec.manifest [].
Proof.
  split; [constructor |]. split; [vm_compute; reflexivity |].
  vm_compute. discriminate.
Qed.

(** The scenario of the design document: bandwidths 2928000 and 864000,
    in that order. *)
Example buildMaster_720_360 :
  Master.buildMaster "u1" "abc123" ["720p"; "360p"]
  = "#EXTM3U" +:+ nl
    +:+ "#EXT-X-STREAM-INF:BANDWIDTH=2928000,RESOLUTION=1280x720" +:+ nl
    +:+ "720p/index.m3u8" +:+ nl
    +:+ "#EXT-X-STREAM-INF:BANDWIDTH=864000,RESOLUTION=640x360" +:+ nl
    +:+ "360p/index.m3u8" +:+ nl.
Proof. vm_compute. reflexivity. Qed.

End MasterManifest.

(** ** The playback resolver *)

Section Resolver.

Import Playback URLForms.

Lemma noByte_app (c : ascii) (a b : string) :
  Shape.noByte c (a +:+ b) = Shape.noByte c a && Shape.noByte c b.
Proof.
  induction a as [|x a IH]; cbn [String.append Shape.noByte]; [reflexivity |].
  now rewrite IH, andb_assoc.
Qed.

(** The cloud-provider pattern comes first: a URL that holds the marker
    resolves to what follows its first occurrence. *)
Lemma extractBlobPath_cloud (h : Handler) (url : string) (m : nat) :
  Index url cloudMarker = Some m →
  extractBlobPath h url
  = stripBucket h (GoStrings.drop (m + String.length cloudMarker) url).
Proof.
  intros Hi. unfold extractBlobPath.
  change ".blob.core.windows.net/" with cloudMarker.
  rewrite (Contains_true _ _ _ Hi). cbn [SplitN genSplit]. now rewrite Hi.
Qed.

(** The generic pattern comes second. *)
Lemma extractBlobPath_generic (h : Handler) (url a b c p : string) (rest : list string) :
  Index url cloudMarker = None →
  HasPrefix url "http://" || HasPrefix url "https://" = true →
  SplitN url "/" 4 = a :: b :: c :: p :: rest →
  extractBlobPath h url = stripBucket h p.
Proof.
  intros Hi Hp Hs. unfold extractBlobPath.
  change ".blob.core.windows.net/" with cloudMarker.
  unfold Contains. rewrite Hi, Hp, Hs.
  rewrite bool_decide_eq_false_2; [reflexivity | intros [? ?]; discriminate].
Qed.

(** Anything else is taken as a relative path. *)
Lemma extractBlobPath_relative (h : Handler) (url : string) :
  Index url cloudMarker = None →
  HasPrefix url "http://" || HasPrefix url "https://" = false →
  extractBlobPath h url = TrimPrefix url "/".
Proof.
  intros Hi Hp. unfold extractBlobPath.
  change ".blob.core.windows.net/" with cloudMarker.
  unfold Contains. rewrite Hi, Hp.
  rewrite bool_decide_eq_false_2; [reflexivity | intros [? ?]; discriminate].
Qed.

Lemma stripBucket_path (h : Handler) (p : string) :
  HasPrefix p "/" = false → stripBucket h (bucket h +:+ "/" +:+ p) = p.
Proof.
  intros Hp. unfold stripBucket.
  rewrite <- app_assoc_s, TrimPrefix_app. now apply TrimPrefix_none.
Qed.

Lemma cloud_form_resolves (h : Handler) (account p : string) :
  Shape.noByte "." account = true →
  HasPrefix p "/" = false →
  extractBlobPath h (cloudURL account (bucket h) p) = p.
Proof.
  intros Hacct Hp. unfold cloudURL.
  set (rest := bucket h +:+ "/" +:+ p).
  assert (Hi : Index ("https://" +:+ account +:+ cloudMarker +:+ rest) cloudMarker
               = Some (String.length ("https://" +:+ account))).
  { rewrite <- (app_assoc_s "https://").
    apply (Index_skip "." "blob.core.windows.net/").
    rewrite noByte_app, Hacct. reflexivity. }
  rewrite (extractBlobPath_cloud _ _ _ Hi).
  replace (String.length ("https://" +:+ account) + String.length cloudMarker)
    with (String.length (("https://" +:+ account) +:+ cloudMarker)).
  - rewrite <- (app_assoc_s "https://"), <- (app_assoc_s ("https://" +:+ account)).
    rewrite drop_app. now apply stripBucket_path.
  - generalize ("https://" +:+ account). clear.
    intros s; induction s as [|x s IH]; cbn; [reflexivity | now rewrite IH].
Qed.

Lemma generic_split (scheme host rest : string) :
  scheme = "http://" ∨ scheme = "https://" →
  Shape.noByte "/" host = true →
  ∃ a, SplitN (scheme +:+ host +:+ "/" +:+ rest) "/" 4 = [a; ""; host; rest].
Proof.
  intros Hs Hh.
  assert (H3 : genSplit 1 (host +:+ "/" +:+ rest) "/" = [host; rest]).
  { exact (genSplit_cut 0 "/" "" host rest Hh). }
  assert (H2 : genSplit 2 ("/" +:+ host +:+ "/" +:+ rest) "/" = [""; host; rest]).
  { exact (eq_trans (genSplit_cut 1 "/" "" "" (host +:+ "/" +:+ rest) eq_refl)
                    (f_equal (cons "") H3)). }
  destruct Hs as [-> | ->]; cbn [SplitN].
  - exists "http:".
    exact (eq_trans (genSplit_cut 2 "/" "" "http:" ("/" +:+ host +:+ "/" +:+ rest) eq_refl)
                    (f_equal (cons "http:") H2)).
  - exists "https:".
    exact (eq_trans (genSplit_cut 2 "/" "" "https:" ("/" +:+ host +:+ "/" +:+ rest) eq_refl)
                    (f_equal (cons "https:") H2)).
Qed.

Lemma generic_form_resolves (h : Handler) (scheme host p : string) :
  scheme = "http://" ∨ scheme = "https://" →
  Shape.noByte "/" host = true →
  Contains (genericURL scheme host (bucket h) p) cloudMarker = false →
  HasPrefix p "/" = false →
  extractBlobPath h (genericURL scheme host (bucket h) p) = p.
Proof.
  intros Hs Hh Hc Hp. unfold genericURL in *.
  destruct (generic_split scheme host (bucket h +:+ "/" +:+ p) Hs Hh) as [a Ha].
  assert (Hpre : HasPrefix (scheme +:+ host +:+ "/" +:+ bucket h +:+ "/" +:+ p) "http://"
                 || HasPrefix (scheme +:+ host +:+ "/" +:+ bucket h +:+ "/" +:+ p) "https://"
                 = true).
  { destruct Hs as [-> | ->]; unfold HasPrefix.
    - now rewrite (prefix_app "http://").
    - rewrite (prefix_app "https://"). apply orb_true_r. }
  rewrite (extractBlobPath_generic h _ _ _ _ _ _ (Contains_false _ _ Hc) Hpre Ha).
  now apply stripBucket_path.
Qed.

Lemma extractBlobPath_fallback (h : Handler) (url : string) :
  Index url cloudMarker = None →
  HasPrefix url "http://" || HasPrefix url "https://" = false
  ∨ (length (SplitN url "/" 4) < 4)%nat →
  extractBlobPath h url = TrimPrefix url "/".
Proof.
  intros Hi [Hp | Hl].
  - now apply extractBlobPath_relative.
  - unfold extractBlobPath.
    change ".blob.core.windows.net/" with cloudMarker.
    unfold Contains. rewrite Hi.
    rewrite bool_decide_eq_false_2 by (intros [? ?]; discriminate).
    destruct (SplitN url "/" 4) as [|a [|b [|c [|d l]]]];
      try (now destruct (HasPrefix url "http://" || HasPrefix url "https://")).
    cbn [length] in Hl. lia.
Qed.

Lemma relative_form_resolves (h : Handler) (p : string) :
  Contains p cloudMarker = false →
  HasPrefix p "http://" || HasPrefix p "https://" = false →
  HasPrefix p "/" = false →
  extractBlobPath h p = p ∧ extractBlobPath h ("/" +:+ p) = p.
Proof.
  intros Hc Hs Hp. split.
  - rewrite (extractBlobPath_relative h p (Contains_false _ _ Hc) Hs).
    now apply TrimPrefix_none.
  - rewrite (extractBlobPath_relative h ("/" +:+ p)).
    + apply (TrimPrefix_app "/").
    + change ("/" +:+ p) with (String "/" p). cbn [Index].
      unfold HasPrefix at 1. unfold cloudMarker at 1.
      rewrite (prefix_head_ne "." "/" _ _ eq_refl).
      now rewrite (Contains_false _ _ Hc).
    + reflexivity.
Qed.

(** C2 (amended): [extractBlobPath] tries the cloud-provider pattern
    first (the part after the first [.blob.core.windows.net/], bucket
    prefix and leading slash stripped), then the generic
    [http(s)://host/bucket/path] pattern (split on [/], host and bucket
    dropped), then takes the value as a relative path (leading slash
    stripped).  For every path [p] that does not start with a slash, the
    cloud-provider URL of [p] with an account name without dot resolves
    to [p]; so does the generic URL of [p], when its host holds no slash
    and the URL does not hold the cloud-provider marker; and so do [p]
    and [/p] themselves, when [p] neither holds the marker nor starts
    with [http://] or [https://]. *)
Theorem extractBlobPath_resolution (h : Handler) :
  (∀ url m,
      Index url cloudMarker = Some m →
      extractBlobPath h url
      = stripBucket h (GoStrings.drop (m + String.length cloudMarker) url))
  ∧ (∀ url a b c p rest,
      Index url cloudMarker = None →
      HasPrefix url "http://" || HasPrefix url "https://" = true →
      SplitN url "/" 4 = a :: b :: c :: p :: rest →
      extractBlobPath h url = stripBucket h p)
  ∧ (∀ url,
      Index url cloudMarker = None →
      HasPrefix url "http://" || HasPrefix url "https://" = false
      ∨ (length (SplitN url "/" 4) < 4)%nat →
      extractBlobPath h url = TrimPrefix url "/")
  ∧ (∀ account scheme host p,
      HasPrefix p "/" = false →
      (Shape.noByte "." account = true →
       extractBlobPath h (cloudURL account (bucket h) p) = p)
      ∧ (scheme = "http://" ∨ scheme = "https://" →
         Shape.noByte "/" host = true →
         Contains (genericURL scheme host (bucket h) p) cloudMarker = false →
         extractBlobPath h (genericURL scheme host (bucket h) p) = p)
      ∧ (Contains p cloudMarker = false →
         HasPrefix p "http://" || HasPrefix p "https://" = false →
         extractBlobPath h p = p ∧ extractBlobPath h ("/" +:+ p) = p)).
Proof.
  repeat split.
  - apply extractBlobPath_cloud.
  - apply extractBlobPath_generic.
  - apply extractBlobPath_fallback.
  - intros; now apply cloud_form_resolves.
  - intros; now apply generic_form_resolves.
  - intros; now apply relative_form_resolves.
  - intros; now apply relative_form_resolves.
Qed.

Lemma extractBlobPath_resolution_witness :
  extractBlobPath Examples.privateHandler
    (cloudURL "acct" "processed-videos" Examples.masterPath) = Examples.masterPath
  ∧ extractBlobPath Examples.privateHandler
      (genericURL "http://" "minio:9000" "processed-videos" Examples.masterPath)
    = Examples.masterPath
  ∧ extractBlobPath Examples.privateHandler Examples.masterPath = Examples.masterPath
  ∧ extractBlobPath Examples.privateHandler ("/" +:+ Examples.masterPath)
    = Examples.masterPath.
Proof.
  destruct (extractBlobPath_resolution Examples.privateHandler) as (_ & _ & _ & H).
  destruct (H "acct" "http://" "minio:9000" Examples.masterPath eq_refl)
    as (Hc & Hg & Hr).
  split; [exact (Hc eq_refl) |].
  split; [exact (Hg (or_introl eq_refl) eq_refl eq_refl) |].
  exact (Hr eq_refl eq_refl).
Defined.

(** C2 as stated fails: for a path that holds the cloud-provider marker
    the cloud-provider form resolves to the path, while the generic form
    and the bare form resolve to what follows the marker. *)
Lemma extractBlobPath_forms_disagree :
  extractBlobPath Examples.privateHandler
    (cloudURL "acct" "processed-videos" Examples.mirroredPath) = Examples.mirroredPath
  ∧ extractBlobPath Examples.privateHandler
      (genericURL "http://" "minio:9000" "processed-videos" Examples.mirroredPath)
    = "master.m3u8"
  ∧ extractBlobPath Examples.privateHandler Examples.mirroredPath = "master.m3u8"
  ∧ "master.m3u8" ≠ Examples.mirroredPath.
Proof. repeat split; try (vm_compute; reflexivity). discriminate. Qed.

End Resolver.

(** ** The playback handlers *)

Section Handlers.

Import Playback.

(** Unfolds the sequencing of a handler. *)
Ltac run_handler :=
  cbv [mbind mret P_bind P_ret Playback.bind Playback.ret queryFirst emit log];
  cbn beta iota.

Lemma allowedRendition_known (r : string) :
  allowedRendition r = true ↔ ManifestSpec.knownLabel r.
Proof.
  unfold allowedRendition, ManifestSpec.knownLabel.
  destruct (decide _) as [H | H]; split; intros; try discriminate; tauto.
Qed.

Lemma allowedRendition_unknown (r : string) :
  ¬ ManifestSpec.knownLabel r → allowedRendition r = false.
Proof.
  intros H. destruct (allowedRendition r) eqn:E; [|reflexivity].
  now apply allowedRendition_known in E.
Qed.

(** C5: a request whose rendition is none of 1080p, 720p, 480p and
    360p is answered with status 400 by [GetVariant] and by
    [GetSegment], and so is a request to [GetSegment] whose segment name
    ends neither in [.ts] nor in [.m4s]; the handler then makes no call
    at all: no query, no fetch from the object store or the upstream,
    no cache access, and the cache store is left as it was. *)
Theorem invalid_request_rejected (h : Handler) (w : World)
    (uploadID rendition segment : string) (st : Store) :
  (¬ ManifestSpec.knownLabel rendition →
   GetVariant h w uploadID rendition st
   = (cString ∅ 400 "invalid rendition", st, []))
  ∧ (¬ ManifestSpec.knownLabel rendition
     ∨ (HasSuffix segment ".ts" = false ∧ HasSuffix segment ".m4s" = false) →
     GetSegment h w uploadID rendition segment st
     = (cString ∅ 400 "invalid segment", st, [])).
Proof.
  split.
  - intros Hr. unfold GetVariant.
    now rewrite (allowedRendition_unknown _ Hr).
  - unfold GetSegment. intros [Hr | [Hts Hm4s]].
    + now rewrite (allowedRendition_unknown _ Hr).
    + rewrite Hts, Hm4s. now rewrite orb_true_r.
Qed.

Lemma invalid_request_rejected_witness :
  GetVariant Examples.privateHandler (Examples.playbackWorld Examples.readyVideo false)
    "abc123" "4k" ∅
  = (cString ∅ 400 "invalid rendition", ∅, [])
  ∧ GetSegment Examples.privateHandler (Examples.playbackWorld Examples.readyVideo false)
      "abc123" "4k" "seg_000.ts" ∅
    = (cString ∅ 400 "invalid segment", ∅, [])
  ∧ GetSegment Examples.privateHandler (Examples.playbackWorld Examples.readyVideo false)
      "abc123" "720p" "seg_000.mp4" ∅
    = (cString ∅ 400 "invalid segment", ∅, []).
Proof.
  assert (Hr : ¬ ManifestSpec.knownLabel "4k").
  { unfold ManifestSpec.knownLabel. intros [H | [H | [H | H]]]; discriminate. }
  destruct (invalid_request_rejected Examples.privateHandler
              (Examples.playbackWorld Examples.readyVideo false)
              "abc123" "4k" "seg_000.ts" ∅) as [Hv Hs].
  destruct (invalid_request_rejected Examples.privateHandler
              (Examples.playbackWorld Examples.readyVideo false)
              "abc123" "720p" "seg_000.mp4" ∅) as [_ Hs'].
  split; [exact (Hv Hr) |].
  split; [exact (Hs (or_introl Hr)) | exact (Hs' (or_intror (conj eq_refl eq_refl)))].
Defined.

(** C3 (amended): each of the four operations answers 404 when the
    query for the descriptor finds none ([GetVariant] and [GetSegment]
    once their parameters have passed validation).  [GetMaster] answers
    the distinct status 400, "master not ready", when the descriptor
    exists and its manifest field is empty.  [GetThumbnail] answers 404,
    "Thumbnail not available", when the descriptor exists and its
    thumbnail field is empty, whatever the manifest field holds. *)
Theorem descriptor_checks (h : Handler) (w : World)
    (uploadID rendition segment : string) (st : Store) :
  (dbFirst w uploadID = None →
   GetMaster h w uploadID st = (cString ∅ 404 "not found", st, [EQuery uploadID])
   ∧ GetThumbnail h w uploadID st
     = (cString ∅ 404 "Video not found", st, [EQuery uploadID])
   ∧ (ManifestSpec.knownLabel rendition →
      GetVariant h w uploadID rendition st
      = (cString ∅ 404 "not found", st, [EQuery uploadID]))
   ∧ (ManifestSpec.knownLabel rendition →
      HasSuffix segment ".ts" || HasSuffix segment ".m4s" = true →
      GetSegment h w uploadID rendition segment st
      = (cString ∅ 404 "not found", st, [EQuery uploadID])))
  ∧ (∀ v, dbFirst w uploadID = Some v → HLSMasterURL v = "" →
     GetMaster h w uploadID st
     = (cString ∅ 400 "master not ready", st, [EQuery uploadID]))
  ∧ (∀ v, dbFirst w uploadID = Some v → ThumbnailURL v = "" →
     GetThumbnail h w uploadID st
     = (cString ∅ 404 "Thumbnail not available", st, [EQuery uploadID])).
Proof.
  split; [intros Hnone; repeat split | split].
  - unfold GetMaster. run_handler. now rewrite Hnone.
  - unfold GetThumbnail. run_handler. now rewrite Hnone.
  - intros Hr. apply allowedRendition_known in Hr.
    unfold GetVariant. rewrite Hr. run_handler. now rewrite Hnone.
  - intros Hr Hs. apply allowedRendition_known in Hr.
    apply orb_true_iff in Hs.
    unfold GetSegment. rewrite Hr.
    replace (negb (HasSuffix segment ".ts") && negb (HasSuffix segment ".m4s"))
      with false by (destruct Hs as [-> | ->]; cbn; now rewrite ?andb_false_r).
    run_handler. now rewrite Hnone.
  - intros v Hv Hm. unfold GetMaster. run_handler. rewrite Hv, Hm. reflexivity.
  - intros v Hv Ht. unfold GetThumbnail. run_handler. rewrite Hv, Ht. reflexivity.
Qed.

Lemma descriptor_checks_witness :
  GetMaster Examples.publicHandler (Examples.playbackWorld Examples.pendingVideo false)
    "missing" ∅
  = (cString ∅ 404 "not found", ∅, [EQuery "missing"])
  ∧ GetMaster Examples.publicHandler (Examples.playbackWorld Examples.pendingVideo false)
      "abc123" ∅
    = (cString ∅ 400 "master not ready", ∅, [EQuery "abc123"]).
Proof.
  split.
  - destruct (descriptor_checks Examples.publicHandler
                (Examples.playbackWorld Examples.pendingVideo false)
                "missing" "720p" "seg_000.ts" ∅) as (Hmissing & _ & _).
    exact (proj1 (Hmissing eq_refl)).
  - destruct (descriptor_checks Examples.publicHandler
                (Examples.playbackWorld Examples.pendingVideo false)
                "abc123" "720p" "seg_000.ts" ∅) as (_ & Hpending & _).
    exact (Hpending Examples.pendingVideo eq_refl eq_refl).
Defined.

(** C3 as stated fails: for a descriptor whose manifest field is empty,
    [GetThumbnail] redirects to the stored thumbnail and [GetVariant]
    goes on to fetch [/720p/index.m3u8]; and a request with an invalid
    rendition for an unknown video is answered 400, not 404. *)
Lemma thumbnail_ignores_manifest :
  dbFirst (Examples.playbackWorld Examples.pendingVideo false) "abc123"
  = Some Examples.pendingVideo
  ∧ HLSMasterURL Examples.pendingVideo = ""
  ∧ GetThumbnail Examples.publicHandler
      (Examples.playbackWorld Examples.pendingVideo false) "abc123" ∅
    = (Redirect 302 "http://cdn.example/thumbnails/u1/abc123.jpg", ∅, [EQuery "abc123"])
  ∧ GetVariant Examples.publicHandler
      (Examples.playbackWorld Examples.pendingVideo false) "abc123" "720p" ∅
    = (cString ∅ 502 "upstream error", ∅, [EQuery "abc123"; EHttpGet "/720p/index.m3u8"])
  ∧ dbFirst (Examples.playbackWorld Examples.pendingVideo false) "missing" = None
  ∧ statusOf (GetVariant Examples.publicHandler
                (Examples.playbackWorld Examples.pendingVideo false)
                "missing" "4k" ∅).1.1 = 400%Z.
Proof. repeat split; vm_compute; reflexivity. Qed.

Section SegmentCache.

Variables (h : Handler) (w : World) (v : Video).
Variables (uploadID rendition segment : string).

Hypothesis private_mode : s3client h = true.
Hypothesis cache_configured : cache h = true.
Hypothesis rendition_valid : ManifestSpec.knownLabel rendition.
Hypothesis segment_valid : HasSuffix segment ".ts" || HasSuffix segment ".m4s" = true.
Hypothesis descriptor : dbFirst w uploadID = Some v.

Let path := CacheSpec.segmentBlobPath h v rendition segment.
Let key := CacheSpec.segmentKey h v uploadID rendition segment.

Lemma segment_validated :
  negb (allowedRendition rendition)
  || (negb (HasSuffix segment ".ts") && negb (HasSuffix segment ".m4s")) = false.
Proof.
  apply allowedRendition_known in rendition_valid as ->.
  apply orb_true_iff in segment_valid as [-> | ->]; cbn; now rewrite ?andb_false_r.
Qed.

(** A hit: the cached bytes, and no fetch. *)
Lemma segment_hit (st : Store) (data : string) :
  cacheGetErr w key = None →
  st !! key = Some data →
  ∃ r, GetSegment h w uploadID rendition segment st
       = (r, st, [EQuery uploadID; ECacheGet key])
       ∧ CacheSpec.served r data.
Proof.
  intros Hget Hhit. unfold GetSegment. rewrite segment_validated.
  run_handler. rewrite descriptor, private_mode.
  unfold tryCache. rewrite cache_configured. run_handler.
  unfold cacheGet.
  change (blobBase h (HLSMasterURL v) +:+ "/" +:+ rendition +:+ "/" +:+ segment) with path.
  change (GenerateKey "segment" uploadID path) with key.
  rewrite Hget, Hhit. cbn [app].
  eexists. split; [reflexivity | split; reflexivity].
Qed.

(** A miss, or a cache that cannot be read: one fetch, then the cache
    write, whose failure is logged and changes nothing else. *)
Lemma segment_miss (st : Store) (data : string) :
  cacheGetErr w key ≠ None ∨ st !! key = None →
  getObject w (bucket h) path = inr data →
  ∃ r, GetSegment h w uploadID rendition segment st
       = (r,
          match cacheSetErr w key with
          | Some _ => st
          | None => <[key := data]> st
          end,
          ([EQuery uploadID; ECacheGet key]
           ++ CacheSpec.logIfFailed (cacheGetErr w key) "cache get error"
           ++ [EGetObject (bucket h) path; ECacheSet key data]
           ++ CacheSpec.logIfFailed (cacheSetErr w key) "cache set error")%list)
       ∧ CacheSpec.served r data.
Proof.
  intros Hmiss Hobj. unfold GetSegment. rewrite segment_validated.
  run_handler. rewrite descriptor, private_mode.
  unfold tryCache, storeInCache, downloadBlob.
  rewrite cache_configured, private_mode. run_handler.
  unfold cacheGet, cacheSet.
  change (blobBase h (HLSMasterURL v) +:+ "/" +:+ rendition +:+ "/" +:+ segment) with path.
  change (GenerateKey "segment" uploadID path) with key.
  rewrite Hobj.
  destruct (cacheGetErr w key) as [e|] eqn:Hget.
  - destruct (cacheSetErr w key); cbn [app CacheSpec.logIfFailed];
      eexists; (split; [reflexivity | split; reflexivity]).
  - destruct Hmiss as [Hm | Hm]; [congruence |]. rewrite Hm.
    destruct (cacheSetErr w key); cbn [app CacheSpec.logIfFailed];
      eexists; (split; [reflexivity | split; reflexivity]).
Qed.

(** C6 (amended): in private mode with a cache, [GetSegment] is
    read-through.  On a hit the cached bytes are returned and the object
    store is not asked.  On a miss, or when the cache cannot be read, the
    bytes are fetched from the object store, then written to the cache,
    then returned; a failure of the cache write is logged and the response
    is the same.  When the cache can be read and written, fetching the
    same segment twice, the cache store untouched in between, asks the
    object store exactly once. *)
Theorem segment_cache_read_through (st : Store) (data : string) :
  (cacheGetErr w key = None →
   st !! key = Some data →
   ∃ r, GetSegment h w uploadID rendition segment st
        = (r, st, [EQuery uploadID; ECacheGet key])
        ∧ CacheSpec.served r data)
  ∧ (cacheGetErr w key ≠ None ∨ st !! key = None →
     getObject w (bucket h) path = inr data →
     ∃ r, GetSegment h w uploadID rendition segment st
          = (r,
             match cacheSetErr w key with
             | Some _ => st
             | None => <[key := data]> st
             end,
             ([EQuery uploadID; ECacheGet key]
              ++ CacheSpec.logIfFailed (cacheGetErr w key) "cache get error"
              ++ [EGetObject (bucket h) path; ECacheSet key data]
              ++ CacheSpec.logIfFailed (cacheSetErr w key) "cache set error")%list)
          ∧ CacheSpec.served r data)
  ∧ (cacheGetErr w key = None →
     cacheSetErr w key = None →
     st !! key = None →
     getObject w (bucket h) path = inr data →
     ∃ r1 r2 st1 t1 t2,
       GetSegment h w uploadID rendition segment st = (r1, st1, t1)
       ∧ GetSegment h w uploadID rendition segment st1 = (r2, st1, t2)
       ∧ CacheSpec.served r1 data ∧ CacheSpec.served r2 data
       ∧ Shape.storageFetches (t1 ++ t2) = 1).
Proof.
  split; [apply segment_hit | split; [apply segment_miss |]].
  intros Hget Hset Hnone Hobj.
  destruct (segment_miss st data (or_intror Hnone) Hobj) as (r1 & E1 & S1).
  rewrite Hget, Hset in E1. cbn [CacheSpec.logIfFailed app] in E1.
  destruct (segment_hit (<[key := data]> st) data Hget (lookup_insert_eq _ _ _))
    as (r2 & E2 & S2).
  exists r1, r2. eexists. eexists. eexists.
  split; [exact E1 | split; [exact E2 | split; [exact S1 | split; [exact S2 |]]]].
  reflexivity.
Qed.

End SegmentCache.

Lemma segment_cache_read_through_witness :
  ∃ r1 r2 st1 t1 t2,
    GetSegment Examples.privateHandler (Examples.playbackWorld Examples.readyVideo false)
      "abc123" "720p" "seg_000.ts" ∅ = (r1, st1, t1)
    ∧ GetSegment Examples.privateHandler (Examples.playbackWorld Examples.readyVideo false)
        "abc123" "720p" "seg_000.ts" st1 = (r2, st1, t2)
    ∧ CacheSpec.served r1 "bytes of hls/u1/abc123/720p/seg_000.ts"
    ∧ CacheSpec.served r2 "bytes of hls/u1/abc123/720p/seg_000.ts"
    ∧ Shape.storageFetches (t1 ++ t2) = 1.
Proof.
  assert (Hr : ManifestSpec.knownLabel "720p") by (right; left; reflexivity).
  destruct (segment_cache_read_through Examples.privateHandler
              (Examples.playbackWorld Examples.readyVideo false) Examples.readyVideo
              "abc123" "720p" "seg_000.ts" eq_refl eq_refl Hr eq_refl eq_refl
              ∅ "bytes of hls/u1/abc123/720p/seg_000.ts") as (_ & _ & Htwice).
  exact (Htwice eq_refl eq_refl eq_refl eq_refl).
Defined.

(** C6 as stated fails: when the cache write fails, which the handler
    only logs, the same segment fetched twice is read from the object
    store twice. *)
Lemma segment_fetched_twice_when_cache_set_fails :
  let w := Examples.playbackWorld Examples.readyVideo true in
  let '(r1, st1, t1) :=
    GetSegment Examples.privateHandler w "abc123" "720p" "seg_000.ts" ∅ in
  let '(r2, st2, t2) :=
    GetSegment Examples.privateHandler w "abc123" "720p" "seg_000.ts" st1 in
  CacheSpec.served r1 "bytes of hls/u1/abc123/720p/seg_000.ts"
  ∧ CacheSpec.served r2 "bytes of hls/u1/abc123/720p/seg_000.ts"
  ∧ Shape.storageFetches (t1 ++ t2) = 2.
Proof. vm_compute. repeat split; reflexivity. Qed.

(** A line that is literally [<label>/index.m3u8] is rewritten to
    itself. *)
Lemma rewriteMatch_literal (label : string) :
  ManifestSpec.knownLabel label →
  matchLine (label +:+ "/index.m3u8") = true
  ∧ rewriteMatch (label +:+ "/index.m3u8") = label +:+ "/index.m3u8".
Proof. intros [-> | [-> | [-> | ->]]]; split; vm_compute; reflexivity. Qed.

(** The rewrite leaves a text alone when the lines it matches are the
    literal references. *)
Lemma rewrite_identity_on_literal_lines (text : string) :
  (∀ line, In line (cutAll (ascii_of_nat 10) text) → matchLine line = true →
           ∃ label, ManifestSpec.knownLabel label ∧ line = label +:+ "/index.m3u8") →
  rewriteRenditionLines text = text.
Proof.
  intros Hlit. unfold rewriteRenditionLines.
  rewrite <- (Join_cutAll (ascii_of_nat 10) text) at 2.
  change (String (ascii_of_nat 10) "") with nl. f_equal.
  rewrite <- (map_id (cutAll (ascii_of_nat 10) text)) at 2.
  apply map_ext_in. intros line Hin.
  destruct (matchLine line) eqn:Hm; [| reflexivity].
  destruct (Hlit line Hin Hm) as (label & Hl & ->).
  now apply rewriteMatch_literal.
Qed.

(** C10 fails on the manifest [oddManifest]: the dot of the pattern is
    not escaped, the line [360p/index_m3u8] matches and is replaced by
    [360p/index.m3u8], and the body [GetMaster] serves differs from the
    body it fetched, in public mode and in private mode alike. *)
Theorem master_rewrite_not_identity :
  let w := Examples.servingWorld Examples.oddManifest in
  let served :=
    "#EXTM3U" +:+ nl
    +:+ "#EXT-X-STREAM-INF:BANDWIDTH=2928000,RESOLUTION=1280x720" +:+ nl
    +:+ "720p/index.m3u8" +:+ nl
    +:+ "#EXT-X-STREAM-INF:BANDWIDTH=864000,RESOLUTION=640x360" +:+ nl
    +:+ "360p/index.m3u8" +:+ nl in
  bodyOf (GetMaster Examples.publicHandler w "abc123" ∅).1.1 = served
  ∧ bodyOf (GetMaster Examples.privateHandler w "abc123" ∅).1.1 = served
  ∧ statusOf (GetMaster Examples.publicHandler w "abc123" ∅).1.1 = 200%Z
  ∧ served ≠ Examples.oddManifest.
Proof.
  cbv zeta. repeat split; try (vm_compute; reflexivity).
  vm_compute. discriminate.
Qed.

End Handlers.

(** ** The job handler *)

Section JobHandler.

Import Transcoder.
Import Shape (silent).

Lemma silent_app (t1 t2 : list Effect) : silent t1 → silent t2 → silent (t1 ++ t2).
Proof. unfold silent. intros H1 H2. apply Forall_app; split; assumption. Qed.

Lemma bind_ok {A B} (m : M A) (k : A → M B) (t : list Effect) (a : A) :
  m = (t, inr a) → m ≫= k = ((t ++ (k a).1)%list, (k a).2).
Proof. intros ->. cbv [mbind M_bind bind]. now destruct (k a). Qed.

(** C7: an event whose uploadId, userId or rawVideoPath is empty is
    rejected with the error "missing required fields" before any call
    leaves the handler: no workspace is created and the object store is
    not asked.  The rejection depends on no collaborator: a redelivery
    of the same event is rejected alike, whatever has changed outside. *)
Theorem missing_field_rejected (w : World) (body : string) (evt : UploadEvent) :
  unmarshal w body = inr evt →
  UploadID evt = "" ∨ UserID evt = "" ∨ RawVideoPath evt = "" →
  Handle w body = ([], inl ErrMissingFields).
Proof.
  intros Hevt Hmissing. unfold Handle. rewrite Hevt.
  destruct Hmissing as [-> | [-> | ->]]; cbn [String.eqb orb];
    rewrite ?orb_true_r; reflexivity.
Qed.

Lemma missing_field_rejected_witness :
  Handle (Examples.jobWorld (Examples.uploadEvent "") None false) "{}"
  = ([], inl ErrMissingFields).
Proof.
  apply (missing_field_rejected
           (Examples.jobWorld (Examples.uploadEvent "") None false) "{}"
           (Examples.uploadEvent "")).
  - reflexivity.
  - right. left. reflexivity.
Defined.

(** A failing rendition of the rest of the ladder ends the loop in an
    error, after calls that create directories, encode and log only. *)
Lemma encodeLadder_fails (w : World) (inputPath outRoot : string) (ladder : list string) :
  ∀ k,
    (∃ i res e, ladder !! i = Some res ∧ runEncoder w (k + i) res = Some e) →
    ∃ t err, encodeLadder w inputPath outRoot k ladder = (t, inl err) ∧ silent t.
Proof.
  induction ladder as [|res0 rest IH]; intros k (i & res & e & Hi & He).
  - discriminate.
  - cbn [encodeLadder].
    destruct (mkdirAll w (GoPath.Join [outRoot; res0])) as [em|] eqn:Hmk.
    { eexists; eexists; split; [reflexivity | repeat constructor]. }
    destruct (runEncoder w k res0) as [e0|] eqn:Henc.
    { eexists; eexists; split; [reflexivity | repeat constructor]. }
    destruct i as [|i].
    { cbn in Hi. injection Hi as <-. rewrite Nat.add_0_r in He. congruence. }
    destruct (IH (S k)) as (t & err & Hrun & Hsil).
    { exists i, res, e. split; [exact Hi |].
      now replace (S k + i) with (k + S i) by lia. }
    cbv [call emit mbind M_bind bind]. rewrite Hrun.
    eexists; eexists; split; [reflexivity |].
    cbn [app]. repeat constructor. exact Hsil.
Qed.

Lemma produceHLS_fails (w : World) (evt : UploadEvent) (work : string) :
  (∃ k res e, ladderOf evt !! k = Some res ∧ runEncoder w k res = Some e) →
  ∃ t err, produceHLS w evt work = (t, inl err) ∧ silent t.
Proof.
  intros Hfail. unfold produceHLS.
  destruct (downloadTo w (RawVideoPath evt) (GoPath.Join [work; "input.mp4"])) as [e|].
  { eexists; eexists; split; [reflexivity | repeat constructor]. }
  destruct (mkdirAll w (GoPath.Join [work; "hls"])) as [e|].
  { eexists; eexists; split; [reflexivity | repeat constructor]. }
  destruct (encodeLadder_fails w (GoPath.Join [work; "input.mp4"])
              (GoPath.Join [work; "hls"]) (ladderOf evt) 0 Hfail)
    as (t & err & Hrun & Hsil).
  cbv [call mbind M_bind bind]. rewrite Hrun.
  eexists; eexists; split; [reflexivity |].
  cbn [app]. repeat constructor. exact Hsil.
Qed.

(** C4: when the encoder fails on a rendition of the ladder, [Handle]
    returns an error, and no call of the attempt writes the master
    manifest, uploads an object or publishes the completion event. *)
Theorem encoder_failure_publishes_nothing (w : World) (body : string)
    (evt : UploadEvent) (k : nat) (res e : string) :
  unmarshal w body = inr evt →
  ladderOf evt !! k = Some res →
  runEncoder w k res = Some e →
  (∃ err, (Handle w body).2 = inl err) ∧ silent (Handle w body).1.
Proof.
  intros Hevt Hres Henc. unfold Handle. rewrite Hevt.
  destruct ((UploadID evt =? "") || (UserID evt =? "") || (RawVideoPath evt =? "")).
  { split; [eexists; reflexivity | constructor]. }
  destruct (mkdirAll w (workDir w evt)) as [em|].
  { split; [eexists; reflexivity | repeat constructor]. }
  destruct (produceHLS_fails w evt (workDir w evt)) as (t & err & Hrun & Hsil).
  { exists k, res, e. split; assumption. }
  cbv [call defer mbind M_bind bind]. rewrite Hrun. cbn [fst snd app].
  split; [eexists; reflexivity |].
  constructor; [reflexivity |].
  apply silent_app; [exact Hsil | repeat constructor].
Qed.

Lemma encoder_failure_publishes_nothing_witness :
  (∃ err, (Handle (Examples.jobWorld (Examples.uploadEvent "u1") (Some 1) false)
             "{}").2 = inl err)
  ∧ silent (Handle (Examples.jobWorld (Examples.uploadEvent "u1") (Some 1) false) "{}").1.
Proof.
  apply (encoder_failure_publishes_nothing
           (Examples.jobWorld (Examples.uploadEvent "u1") (Some 1) false) "{}"
           (Examples.uploadEvent "u1") 1 "360p" "exit status 1");
    reflexivity.
Defined.

Lemma buildAzureURL_total (w : World) (blobPath : string) :
  ∃ t url, buildAzureURL w blobPath = (t, inr url).
Proof.
  unfold buildAzureURL.
  destruct (negb (getenv w "MINIO_PUBLIC_BASE" =? "")); [eexists; eexists; reflexivity |].
  cbv zeta.
  match goal with |- context [if ?c then emit _ ;; _ else _] => destruct c end;
    eexists; eexists; reflexivity.
Qed.

(** The thumbnail step never fails, and gives the empty URL when the
    frame cannot be extracted or uploaded. *)
Lemma makeThumbnail_failed (w : World) (evt : UploadEvent) (work : string) :
  runThumbnail w ≠ None
  ∨ uploadFile w (GoPath.Join [work; "thumb.jpg"]) (thumbBlobPathOf evt) ≠ None →
  ∃ t, makeThumbnail w evt work = (t, inr "").
Proof.
  intros Hfail. unfold makeThumbnail.
  destruct (runThumbnail w) as [e|]; [eexists; reflexivity |].
  destruct Hfail as [Hf | Hf]; [congruence |].
  destruct (uploadFile w _ _) as [e|]; [eexists; reflexivity | congruence].
Qed.

(** C9: when the steps before the thumbnail have succeeded and the
    thumbnail cannot be extracted or uploaded, [Handle] still publishes
    the completion event, with [ready] true and an empty thumbnail field,
    and returns what the publication returns: success when the broker
    accepts the event, never an error of the thumbnail. *)
Theorem thumbnail_failure_not_fatal (w : World) (body : string) (evt : UploadEvent) :
  unmarshal w body = inr evt →
  UploadID evt ≠ "" → UserID evt ≠ "" → RawVideoPath evt ≠ "" →
  mkdirAll w (workDir w evt) = None →
  (produceHLS w evt (workDir w evt)).2 = inr tt →
  runThumbnail w ≠ None
  ∨ uploadFile w (GoPath.Join [workDir w evt; "thumb.jpg"]) (thumbBlobPathOf evt) ≠ None →
  ∃ pre out,
    (Handle w body).1 = (pre ++ [EPublish out; ERemoveAll (workDir w evt)])%list
    ∧ thumbnailUrl out = "" ∧ ready out = true
    ∧ (Handle w body).2 = match publishJSON w out with
                          | None => inr tt
                          | Some e => inl (ErrPlain e)
                          end.
Proof.
  intros Hevt Hid Huser Hraw Hmk Hhls Hthumb. unfold Handle. rewrite Hevt.
  apply String.eqb_neq in Hid, Huser, Hraw. rewrite Hid, Huser, Hraw, Hmk.
  cbn [orb].
  destruct (produceHLS w evt (workDir w evt)) as [t1 r1]. cbn [snd] in Hhls. subst r1.
  destruct (makeThumbnail_failed w evt (workDir w evt) Hthumb) as (t2 & Ht2).
  destruct (buildAzureURL_total w (hlsBase evt +:+ "/" +:+ "master.m3u8"))
    as (t3 & url & Hurl).
  unfold publishTranscoded.
  cbv [call defer mbind M_bind bind]. rewrite Ht2, Hurl.
  match goal with |- context [publishJSON w ?o] => set (out := o) end.
  exists ([EMkdirAll (workDir w evt)] ++ t1 ++ t2 ++ t3)%list, out.
  destruct (publishJSON w out); cbn [fst snd];
    (split; [rewrite <- !app_assoc; reflexivity | repeat split]).
Qed.

Lemma thumbnail_failure_not_fatal_witness :
  ∃ pre out,
    (Handle (Examples.jobWorld (Examples.uploadEvent "u1") None true) "{}").1
    = (pre ++ [EPublish out; ERemoveAll "/tmp/transcoder-abc123"])%list
    ∧ thumbnailUrl out = "" ∧ ready out = true
    ∧ (Handle (Examples.jobWorld (Examples.uploadEvent "u1") None true) "{}").2
      = inr tt.
Proof.
  apply (thumbnail_failure_not_fatal
           (Examples.jobWorld (Examples.uploadEvent "u1") None true) "{}"
           (Examples.uploadEvent "u1")); try reflexivity; try discriminate.
  left. discriminate.
Defined.

Import Shape (uploadsTo).

Lemma uploadsTo_nil (P : string → Prop) : uploadsTo P [].
Proof. intros l b ct H. now apply elem_of_nil in H. Qed.

Lemma uploadsTo_app (P : string → Prop) (t1 t2 : list Effect) :
  uploadsTo P t1 → uploadsTo P t2 → uploadsTo P (t1 ++ t2).
Proof.
  intros H1 H2 l b ct H. apply elem_of_app in H as [H | H]; eauto.
Qed.

Lemma uploadsTo_one (P : string → Prop) (e : Effect) :
  (∀ l b ct, e = EUpload l b ct → P b) → uploadsTo P [e].
Proof. intros He l b ct H. apply list_elem_of_singleton in H. eauto. Qed.

Lemma uploadsTo_weaken (P Q : string → Prop) (t : list Effect) :
  (∀ b, P b → Q b) → uploadsTo P t → uploadsTo Q t.
Proof. intros HPQ H l b ct Hin. eauto. Qed.

Lemma uploadsTo_bind {A B} (P : string → Prop) (m : M A) (k : A → M B) :
  uploadsTo P m.1 → (∀ a, uploadsTo P (k a).1) → uploadsTo P (m ≫= k).1.
Proof.
  intros Hm Hk. destruct m as [t [e | a]]; [exact Hm |].
  rewrite (bind_ok _ k t a eq_refl). apply uploadsTo_app; [exact Hm | apply Hk].
Qed.

Lemma uploadsTo_call (P : string → Prop) (e : Effect) (r : option string)
    (wrap : string → error) :
  (∀ l b ct, e = EUpload l b ct → P b) → uploadsTo P (call e r wrap).1.
Proof. intros He. destruct r; now apply uploadsTo_one. Qed.

Lemma uploadsTo_defer {A} (P : string → Prop) (e : Effect) (m : M A) :
  (∀ l b ct, e = EUpload l b ct → P b) → uploadsTo P m.1 → uploadsTo P (defer e m).1.
Proof.
  intros He Hm. destruct m as [t r]. cbn.
  apply uploadsTo_app; [exact Hm | now apply uploadsTo_one].
Qed.

Lemma uploadsTo_wrapErr {A} (P : string → Prop) (wrap : string → error) (m : M A) :
  uploadsTo P m.1 → uploadsTo P (wrapErr wrap m).1.
Proof. destruct m as [t [[] | a]]; intros H; exact H. Qed.

Lemma uploadsTo_buildAzureURL (P : string → Prop) (w : World) (blobPath : string) :
  uploadsTo P (buildAzureURL w blobPath).1.
Proof.
  unfold buildAzureURL.
  destruct (negb (getenv w "MINIO_PUBLIC_BASE" =? "")); [apply uploadsTo_nil |].
  cbv zeta.
  match goal with |- context [if ?c then emit _ ;; _ else _] => destruct c end.
  - apply uploadsTo_one. discriminate.
  - apply uploadsTo_nil.
Qed.

Lemma uploadsTo_encodeLadder (P : string → Prop) (w : World)
    (inputPath outRoot : string) (ladder : list string) :
  ∀ k, uploadsTo P (encodeLadder w inputPath outRoot k ladder).1.
Proof.
  induction ladder as [|res rest IH]; intros k; cbn [encodeLadder].
  - apply uploadsTo_nil.
  - apply uploadsTo_bind; [apply uploadsTo_call; discriminate | intros _].
    apply uploadsTo_bind; [apply uploadsTo_call; discriminate | intros _].
    apply uploadsTo_bind; [apply uploadsTo_one; discriminate | intros _].
    apply IH.
Qed.

(** [UploadDir] names each blob after the prefix and the relative path
    of a file found by the walk. *)
Lemma uploadsTo_uploadEntries (w : World) (localRoot blobPrefix : string)
    (entries : list WalkEntry) :
  uploadsTo (fun b => ∃ rel, WalkFile rel ∈ entries
                             ∧ b = GoPath.ToSlash (GoPath.Join [blobPrefix; rel]))
            (uploadEntries w localRoot blobPrefix entries).1.
Proof.
  induction entries as [|entry rest IH]; [apply uploadsTo_nil |].
  assert (Hrest : uploadsTo
            (fun b => ∃ rel, WalkFile rel ∈ entry :: rest
                             ∧ b = GoPath.ToSlash (GoPath.Join [blobPrefix; rel]))
            (uploadEntries w localRoot blobPrefix rest).1).
  { eapply uploadsTo_weaken; [| exact IH].
    intros b (rel & Hin & ->). exists rel. split; [apply elem_of_cons; now right | reflexivity]. }
  destruct entry as [e | rel | rel]; cbn [uploadEntries].
  - apply uploadsTo_nil.
  - exact Hrest.
  - apply uploadsTo_bind; [| intros _; exact Hrest].
    apply uploadsTo_call. intros l b ct [= _ <- _].
    exists rel. split; [apply elem_of_cons; now left | reflexivity].
Qed.

(** The objects an attempt uploads: the files of the walk, each named
    after the HLS prefix of the event and its relative path, and the
    thumbnail. *)
Lemma Handle_upload_targets (w : World) (body : string) (evt : UploadEvent) :
  unmarshal w body = inr evt →
  uploadsTo (fun b =>
               (∃ rel, WalkFile rel ∈ walkDir w (GoPath.Join [workDir w evt; "hls"])
                       ∧ b = GoPath.ToSlash (GoPath.Join [hlsBase evt; rel]))
               ∨ b = thumbBlobPathOf evt)
            (Handle w body).1.
Proof.
  intros Hevt. unfold Handle. rewrite Hevt.
  destruct ((UploadID evt =? "") || (UserID evt =? "") || (RawVideoPath evt =? ""));
    [apply uploadsTo_nil |].
  apply uploadsTo_bind; [apply uploadsTo_call; discriminate | intros _].
  apply uploadsTo_defer; [discriminate |].
  apply uploadsTo_bind; [| intros _; apply uploadsTo_bind].
  - unfold produceHLS.
    apply uploadsTo_bind; [apply uploadsTo_call; discriminate | intros _].
    apply uploadsTo_bind; [apply uploadsTo_call; discriminate | intros _].
    apply uploadsTo_bind; [apply uploadsTo_encodeLadder | intros _].
    apply uploadsTo_bind; [apply uploadsTo_call; discriminate | intros _].
    apply uploadsTo_wrapErr. unfold UploadDir.
    eapply uploadsTo_weaken; [| apply uploadsTo_uploadEntries].
    intros b Hb. left. exact Hb.
  - unfold makeThumbnail.
    apply uploadsTo_bind; [apply uploadsTo_one; discriminate | intros _].
    destruct (runThumbnail w); [apply uploadsTo_nil |].
    apply uploadsTo_bind; [apply uploadsTo_one; intros l b ct [= _ <- _]; now right |].
    intros _. destruct (uploadFile w _ _);
      [apply uploadsTo_nil | apply uploadsTo_buildAzureURL].
  - intros thumbnailURL. unfold publishTranscoded.
    apply uploadsTo_bind; [apply uploadsTo_buildAzureURL | intros url].
    apply uploadsTo_call. discriminate.
Qed.

(** The blob name of a file of the tree, when the identifiers are plain
    path elements. *)
Lemma hls_blob_name (evt : UploadEvent) (rel : string) :
  Shape.plainSegment (UserID evt) = true →
  Shape.plainSegment (UploadID evt) = true →
  Shape.cleanRel rel = true →
  GoPath.ToSlash (GoPath.Join [hlsBase evt; rel])
  = "hls/" +:+ UserID evt +:+ "/" +:+ UploadID evt +:+ "/" +:+ rel.
Proof.
  intros Hu Hi Hrel. unfold GoPath.ToSlash, hlsBase.
  set (segs := "hls" :: UserID evt :: UploadID evt :: GoPath.components rel).
  assert (Hjoin : ("hls/" +:+ UserID evt +:+ "/" +:+ UploadID evt) +:+ "/" +:+ rel
                  = GoStrings.Join segs "/").
  { unfold segs. rewrite !Join_cons by (discriminate || apply cutAll_nonempty).
    unfold GoPath.components, GoPath.slash.
    change "/" with (String "/" "") at 6. rewrite Join_cutAll.
    change ("hls/" +:+ UserID evt +:+ "/" +:+ UploadID evt)
      with ("hls" +:+ "/" +:+ UserID evt +:+ "/" +:+ UploadID evt).
    now rewrite !app_assoc_s. }
  change (GoPath.Join [("hls/" +:+ UserID evt +:+ "/" +:+ UploadID evt); rel])
    with (GoPath.Clean (("hls/" +:+ UserID evt +:+ "/" +:+ UploadID evt) +:+ "/" +:+ rel)).
  rewrite Hjoin, Clean_plain.
  - rewrite <- Hjoin. now rewrite !app_assoc_s.
  - discriminate.
  - unfold segs. cbn [forallb]. rewrite Hu, Hi. exact Hrel.
Qed.

(** For identifiers that are plain path elements, every object of an
    attempt goes under [hls/<userId>/<uploadId>/], at the relative path
    of its file (the master manifest at [master.m3u8]), or to
    [thumbnails/<userId>/<uploadId>.jpg]: the paths of two attempts on
    the same identifiers agree file by file. *)
Lemma upload_paths_of_plain_ids (w : World) (body : string) (evt : UploadEvent) :
  unmarshal w body = inr evt →
  Shape.plainSegment (UserID evt) = true →
  Shape.plainSegment (UploadID evt) = true →
  (∀ rel, WalkFile rel ∈ walkDir w (GoPath.Join [workDir w evt; "hls"]) →
          Shape.cleanRel rel = true) →
  uploadsTo (fun b =>
               (∃ rel, WalkFile rel ∈ walkDir w (GoPath.Join [workDir w evt; "hls"])
                       ∧ b = "hls/" +:+ UserID evt +:+ "/" +:+ UploadID evt +:+ "/" +:+ rel)
               ∨ b = "thumbnails/" +:+ UserID evt +:+ "/" +:+ UploadID evt +:+ ".jpg")
            (Handle w body).1.
Proof.
  intros Hevt Hu Hi Hwalk.
  eapply uploadsTo_weaken; [| apply (Handle_upload_targets _ _ _ Hevt)].
  intros b [(rel & Hin & ->) | ->]; [left | right; reflexivity].
  exists rel. split; [exact Hin |]. apply hls_blob_name; auto.
Qed.

(** C8 at the event with userId [..] and uploadId [abc123]: the attempt
    succeeds; [filepath.Join] cleans the blob names of the HLS tree, which
    land under [abc123/] and not under [hls/../abc123/], while the
    thumbnail goes to [thumbnails/../abc123.jpg] and the completion event
    announces the master manifest at [hls/../abc123/master.m3u8]. *)
Theorem upload_paths_cleaned_for_dot_user :
  let w := Examples.jobWorld (Examples.uploadEvent "..") None false in
  (Handle w "{}").2 = inr tt
  ∧ Shape.uploadedPaths (Handle w "{}").1
    = ["abc123/360p/index.m3u8"; "abc123/360p/seg_000.ts";
       "abc123/720p/index.m3u8"; "abc123/720p/seg_000.ts";
       "abc123/master.m3u8"; "thumbnails/../abc123.jpg"]
  ∧ hlsMasterUrl <$> Shape.publishedEvents (Handle w "{}").1
    = ["http://cdn.example/processed-videos/hls/../abc123/master.m3u8"].
Proof. vm_compute. repeat split; reflexivity. Qed.

(** The same attempt for the user [u1]: the paths of the scenario of the
    design document. *)
Example upload_paths_for_u1 :
  let w := Examples.jobWorld (Examples.uploadEvent "u1") None false in
  (Handle w "{}").2 = inr tt
  ∧ Shape.uploadedPaths (Handle w "{}").1
    = ["hls/u1/abc123/360p/index.m3u8"; "hls/u1/abc123/360p/seg_000.ts";
       "hls/u1/abc123/720p/index.m3u8"; "hls/u1/abc123/720p/seg_000.ts";
       "hls/u1/abc123/master.m3u8"; "thumbnails/u1/abc123.jpg"]
  ∧ hlsMasterUrl <$> Shape.publishedEvents (Handle w "{}").1
    = ["http://cdn.example/processed-videos/hls/u1/abc123/master.m3u8"].
Proof. vm_compute. repeat split; reflexivity. Qed.

End JobHandler.

(** * Further properties of the code *)

(** ** The job handler: workspace, ladder and publication *)

Section JobLifecycle.

Import Transcoder.

Lemma trace_bind {A B} (m : M A) (k : A → M B) :
  (m ≫= k).1 = (m.1 ++ match m.2 with
                        | inr a => (k a).1
                        | inl _ => []
                        end)%list.
Proof.
  destruct m as [t [e | a]]; cbv [mbind M_bind bind]; cbn [fst snd].
  - now rewrite app_nil_r.
  - now destruct (k a).
Qed.

Lemma result_bind {A B} (m : M A) (k : A → M B) :
  (m ≫= k).2 = match m.2 with
               | inr a => (k a).2
               | inl e => inl e
               end.
Proof.
  destruct m as [t [e | a]]; cbv [mbind M_bind bind]; cbn [fst snd]; [reflexivity |].
  now destruct (k a).
Qed.

Lemma all_bind {A B} (Q : Effect → Prop) (m : M A) (k : A → M B) :
  Forall Q m.1 → (∀ a, Forall Q (k a).1) → Forall Q (m ≫= k).1.
Proof.
  intros Hm Hk. rewrite trace_bind. apply Forall_app. split; [exact Hm |].
  destruct m.2; [constructor | apply Hk].
Qed.

Lemma all_call (Q : Effect → Prop) (e : Effect) (r : option string)
    (wrap : string → error) :
  Q e → Forall Q (call e r wrap).1.
Proof. intros He. destruct r; repeat constructor; exact He. Qed.

Lemma all_wrapErr {A} (Q : Effect → Prop) (wrap : string → error) (m : M A) :
  Forall Q m.1 → Forall Q (wrapErr wrap m).1.
Proof. destruct m as [t [[] | a]]; intros H; exact H. Qed.

Lemma all_buildAzureURL (Q : Effect → Prop) (w : World) (blobPath : string) :
  (∀ msg, Q (ELog msg)) → Forall Q (buildAzureURL w blobPath).1.
Proof.
  intros Hlog. unfold buildAzureURL.
  destruct (negb (getenv w "MINIO_PUBLIC_BASE" =? "")); [constructor |].
  cbv zeta.
  match goal with |- context [if ?c then emit _ ;; _ else _] => destruct c end;
    repeat constructor. apply Hlog.
Qed.

Lemma all_encodeLadder (Q : Effect → Prop) (w : World) (inputPath outRoot : string)
    (ladder : list string) :
  (∀ p, Q (EMkdirAll p)) → (∀ i d r, Q (EEncode i d r)) → (∀ msg, Q (ELog msg)) →
  ∀ k, Forall Q (encodeLadder w inputPath outRoot k ladder).1.
Proof.
  intros Hmk Henc Hlog.
  induction ladder as [|res rest IH]; intros k; cbn [encodeLadder]; [constructor |].
  apply all_bind; [apply all_call, Hmk | intros _].
  apply all_bind; [apply all_call, Henc | intros _].
  apply all_bind; [repeat constructor; apply Hlog | intros _].
  apply IH.
Qed.

Lemma all_uploadEntries (Q : Effect → Prop) (w : World) (localRoot blobPrefix : string)
    (entries : list WalkEntry) :
  (∀ l b ct, Q (EUpload l b ct)) →
  Forall Q (uploadEntries w localRoot blobPrefix entries).1.
Proof.
  intros Hup.
  induction entries as [|[e | rel | rel] rest IH]; cbn [uploadEntries];
    [constructor | constructor | exact IH |].
  apply all_bind; [apply all_call, Hup | intros _; exact IH].
Qed.

(** The effects of the stages of [Handle]. *)
Lemma all_produceHLS (Q : Effect → Prop) (w : World) (evt : UploadEvent) (work : string) :
  (∀ e, JobTrace.keepsWorkspace e = true → Shape.publishes e = false → Q e) →
  (∀ p c, Q (EWriteFile p c)) → (∀ l b ct, Q (EUpload l b ct)) →
  Forall Q (produceHLS w evt work).1.
Proof.
  intros Hq Hwr Hup. unfold produceHLS.
  apply all_bind; [apply all_call; now apply Hq | intros _].
  apply all_bind; [apply all_call; now apply Hq | intros _].
  apply all_bind; [apply all_encodeLadder; intros; now apply Hq | intros _].
  apply all_bind; [apply all_call, Hwr | intros _].
  apply all_wrapErr, all_uploadEntries, Hup.
Qed.

Lemma all_makeThumbnail (Q : Effect → Prop) (w : World) (evt : UploadEvent) (work : string) :
  (∀ e, JobTrace.keepsWorkspace e = true → Shape.publishes e = false → Q e) →
  (∀ l b ct, Q (EUpload l b ct)) →
  Forall Q (makeThumbnail w evt work).1.
Proof.
  intros Hq Hup. unfold makeThumbnail.
  apply all_bind; [repeat constructor; now apply Hq | intros _].
  destruct (runThumbnail w); [constructor |].
  apply all_bind; [repeat constructor; apply Hup | intros _].
  destruct (uploadFile w _ _); [constructor |].
  apply all_buildAzureURL. intros; now apply Hq.
Qed.

Lemma makeThumbnail_total (w : World) (evt : UploadEvent) (work : string) :
  ∃ t url, makeThumbnail w evt work = (t, inr url).
Proof.
  unfold makeThumbnail.
  destruct (runThumbnail w); [eexists; eexists; reflexivity |].
  destruct (uploadFile w _ _); [eexists; eexists; reflexivity |].
  destruct (buildAzureURL_total w (thumbBlobPathOf evt)) as (t & url & ->).
  eexists; eexists; reflexivity.
Qed.

Lemma omap_nothing {A B} (f : A → option B) (t : list A) :
  Forall (fun e => f e = None) t → omap f t = [].
Proof. induction 1 as [|e t He _ IH]; cbn; [reflexivity | now rewrite He]. Qed.

Lemma Handle_trace (w : World) (body : string) (evt : UploadEvent) :
  unmarshal w body = inr evt →
  UploadID evt ≠ "" → UserID evt ≠ "" → RawVideoPath evt ≠ "" →
  mkdirAll w (workDir w evt) = None →
  Handle w body
  = ((EMkdirAll (workDir w evt)
      :: (produceHLS w evt (workDir w evt);;
          thumbnailURL ← makeThumbnail w evt (workDir w evt);
          publishTranscoded w evt thumbnailURL).1
      ++ [ERemoveAll (workDir w evt)])%list,
     (produceHLS w evt (workDir w evt);;
      thumbnailURL ← makeThumbnail w evt (workDir w evt);
      publishTranscoded w evt thumbnailURL).2).
Proof.
  intros Hevt Hid Huser Hraw Hmk. unfold Handle. rewrite Hevt.
  apply String.eqb_neq in Hid, Huser, Hraw. rewrite Hid, Huser, Hraw, Hmk.
  cbn [orb].
  match goal with |- context [defer _ ?m] => generalize m end.
  intros [t r]. reflexivity.
Qed.

(** X1: once the workspace of an attempt has been created, the attempt
    removes it exactly once, as its last effect, whatever its outcome.
    When the workspace cannot be created the attempt ends there and
    removes nothing. *)
Theorem workspace_released (w : World) (body : string) (evt : UploadEvent) :
  unmarshal w body = inr evt →
  UploadID evt ≠ "" → UserID evt ≠ "" → RawVideoPath evt ≠ "" →
  (mkdirAll w (workDir w evt) = None →
   ∃ pre, (Handle w body).1
          = (EMkdirAll (workDir w evt) :: pre ++ [ERemoveAll (workDir w evt)])%list
          ∧ Forall (fun e => JobTrace.keepsWorkspace e = true) pre)
  ∧ (∀ e, mkdirAll w (workDir w evt) = Some e →
          Handle w body = ([EMkdirAll (workDir w evt)], inl (ErrPlain e))).
Proof.
  intros Hevt Hid Huser Hraw. split.
  - intros Hmk. rewrite (Handle_trace _ _ _ Hevt Hid Huser Hraw Hmk). cbn [fst].
    eexists. split; [reflexivity |].
    apply all_bind; [apply all_produceHLS; intros; try reflexivity; assumption | intros _].
    apply all_bind; [apply all_makeThumbnail; intros; try reflexivity; assumption |].
    intros url. unfold publishTranscoded.
    apply all_bind; [apply all_buildAzureURL; reflexivity | intros u].
    apply all_call. reflexivity.
  - intros e Hmk. unfold Handle. rewrite Hevt.
    apply String.eqb_neq in Hid, Huser, Hraw. now rewrite Hid, Huser, Hraw, Hmk.
Qed.

Lemma workspace_released_witness :
  ∃ pre, (Handle (Examples.jobWorld (Examples.uploadEvent "u1") (Some 1) false) "{}").1
         = (EMkdirAll "/tmp/transcoder-abc123" :: pre
            ++ [ERemoveAll "/tmp/transcoder-abc123"])%list
         ∧ Forall (fun e => JobTrace.keepsWorkspace e = true) pre.
Proof.
  destruct (workspace_released
              (Examples.jobWorld (Examples.uploadEvent "u1") (Some 1) false) "{}"
              (Examples.uploadEvent "u1") eq_refl) as [Hok _];
    try discriminate.
  exact (Hok eq_refl).
Defined.

(** What the part of [Handle] after the creation of the workspace
    publishes. *)
Lemma job_published (w : World) (evt : UploadEvent) (work : string) :
  ∃ masterUrl thumbnailURL t,
    buildAzureURL w (hlsBase evt +:+ "/" +:+ "master.m3u8") = (t, inr masterUrl)
    ∧ (makeThumbnail w evt work).2 = inr thumbnailURL
    ∧ Shape.publishedEvents
        (produceHLS w evt work;;
         thumbnailURL ← makeThumbnail w evt work;
         publishTranscoded w evt thumbnailURL).1
      = match (produceHLS w evt work).2 with
        | inr _ => [JobTrace.completionOf evt masterUrl thumbnailURL]
        | inl _ => []
        end.
Proof.
  destruct (buildAzureURL_total w (hlsBase evt +:+ "/" +:+ "master.m3u8"))
    as (t & masterUrl & Hurl).
  destruct (makeThumbnail_total w evt work) as (t2 & thumbnailURL & Hthumb).
  exists masterUrl, thumbnailURL, t. split; [exact Hurl |].
  split; [now rewrite Hthumb |].
  rewrite trace_bind. unfold Shape.publishedEvents. rewrite omap_app.
  fold (Shape.publishedEvents (produceHLS w evt work).1).
  assert (Hlog : ∀ u, Forall (fun e => ∃ msg, e = ELog msg) (buildAzureURL w u).1).
  { intros u. apply all_buildAzureURL. eauto. }
  assert (HP : Shape.publishedEvents (produceHLS w evt work).1 = []).
  { apply omap_nothing. apply all_produceHLS; intros; try reflexivity.
    destruct e; try reflexivity; discriminate. }
  rewrite HP. cbn [app].
  destruct (produceHLS w evt work).2 as [e | []]; [reflexivity |].
  rewrite trace_bind, omap_app, Hthumb. cbn [fst snd].
  assert (HT : omap (fun e => match e with EPublish out => Some out | _ => None end) t2
               = []).
  { change t2 with (t2, @inr error string thumbnailURL).1. rewrite <- Hthumb.
    apply omap_nothing. apply all_makeThumbnail; intros; try reflexivity.
    destruct e; try reflexivity; discriminate. }
  rewrite HT. cbn [app]. unfold publishTranscoded.
  rewrite trace_bind, omap_app, Hurl. cbn [fst snd].
  assert (HB : omap (fun e => match e with EPublish out => Some out | _ => None end) t
               = []).
  { apply omap_nothing. specialize (Hlog (hlsBase evt +:+ "/" +:+ "master.m3u8")).
    rewrite Hurl in Hlog. eapply Forall_impl; [exact Hlog |].
    intros e [msg ->]. reflexivity. }
  rewrite HB. cbn [app].
  match goal with |- context [call (EPublish ?o) ?r _] => destruct r end; reflexivity.
Qed.

(** The attempts that end before the workspace exists. *)
Lemma Handle_early (w : World) (body : string) (evt : UploadEvent) :
  unmarshal w body = inr evt →
  (UploadID evt = "" ∨ UserID evt = "" ∨ RawVideoPath evt = ""
   ∨ mkdirAll w (workDir w evt) ≠ None) →
  ∃ e, (Handle w body).2 = inl e
       ∧ ((Handle w body).1 = [] ∨ (Handle w body).1 = [EMkdirAll (workDir w evt)]).
Proof.
  intros Hevt Hcase. unfold Handle. rewrite Hevt.
  destruct ((UploadID evt =? "") || (UserID evt =? "") || (RawVideoPath evt =? ""))
    eqn:Hvalid; [eexists; split; [reflexivity | now left] |].
  apply orb_false_iff in Hvalid as [Hvalid Hraw].
  apply orb_false_iff in Hvalid as [Hid Huser].
  apply String.eqb_neq in Hid, Huser, Hraw.
  destruct Hcase as [H | [H | [H | H]]]; try congruence.
  destruct (mkdirAll w (workDir w evt)) as [e|]; [| congruence].
  eexists; split; [reflexivity | now right].
Qed.

Lemma Handle_cases (w : World) (body : string) (evt : UploadEvent) :
  (UploadID evt = "" ∨ UserID evt = "" ∨ RawVideoPath evt = ""
   ∨ mkdirAll w (workDir w evt) ≠ None)
  ∨ (UploadID evt ≠ "" ∧ UserID evt ≠ "" ∧ RawVideoPath evt ≠ ""
     ∧ mkdirAll w (workDir w evt) = None).
Proof.
  destruct (decide (UploadID evt = "")); [tauto |].
  destruct (decide (UserID evt = "")); [tauto |].
  destruct (decide (RawVideoPath evt = "")); [tauto |].
  destruct (mkdirAll w (workDir w evt)) eqn:E; [left | right; tauto].
  repeat right. congruence.
Qed.

Lemma published_framed (p q : string) (pre : list Effect) :
  Shape.publishedEvents (EMkdirAll p :: pre ++ [ERemoveAll q]) = Shape.publishedEvents pre.
Proof.
  unfold Shape.publishedEvents.
  change (EMkdirAll p :: pre ++ [ERemoveAll q])
    with ([EMkdirAll p] ++ pre ++ [ERemoveAll q])%list.
  rewrite !omap_app. cbn. apply app_nil_r.
Qed.

(** X2: an attempt publishes at most one completion event; it publishes
    none unless the download, every rendition, the master manifest and
    the upload of the whole tree have succeeded; and an attempt that
    succeeds has published exactly one.  The event copies the metadata of
    the upload event, is marked ready, and announces the master manifest
    at the URL built for [hls/<userId>/<uploadId>/master.m3u8]. *)
Theorem completion_event_once (w : World) (body : string) (evt : UploadEvent) :
  unmarshal w body = inr evt →
  ∃ masterUrl thumbnailURL t,
    buildAzureURL w (hlsBase evt +:+ "/" +:+ "master.m3u8") = (t, inr masterUrl)
    ∧ (Shape.publishedEvents (Handle w body).1 = []
       ∨ (Shape.publishedEvents (Handle w body).1
          = [JobTrace.completionOf evt masterUrl thumbnailURL]
          ∧ (produceHLS w evt (workDir w evt)).2 = inr tt))
    ∧ ((Handle w body).2 = inr tt →
       Shape.publishedEvents (Handle w body).1
       = [JobTrace.completionOf evt masterUrl thumbnailURL]
       ∧ publishJSON w (JobTrace.completionOf evt masterUrl thumbnailURL) = None).
Proof.
  intros Hevt.
  destruct (job_published w evt (workDir w evt))
    as (masterUrl & thumbnailURL & t & Hurl & Hthumb & Hpub).
  exists masterUrl, thumbnailURL, t. split; [exact Hurl |].
  destruct (Handle_cases w body evt) as [Hearly | (Hid & Huser & Hraw & Hmk)].
  - destruct (Handle_early w body evt Hevt Hearly) as (e & Hres & [Ht | Ht]);
      rewrite Hres, Ht; (split; [now left | discriminate]).
  - rewrite (Handle_trace _ _ _ Hevt Hid Huser Hraw Hmk). cbn [fst snd].
    rewrite !published_framed, Hpub, result_bind.
    destruct (produceHLS w evt (workDir w evt)).2 as [e | []];
      [split; [now left | discriminate] |].
    split; [right; split; reflexivity |].
    rewrite result_bind, Hthumb. unfold publishTranscoded.
    rewrite result_bind, Hurl. cbn [snd].
    change (publishJSON w _) with
      (publishJSON w (JobTrace.completionOf evt masterUrl thumbnailURL)).
    destruct (publishJSON w _); [discriminate |]. intros _. split; reflexivity.
Qed.

Lemma completion_event_once_witness :
  Shape.publishedEvents
    (Handle (Examples.jobWorld (Examples.uploadEvent "u1") None true) "{}").1
  = [JobTrace.completionOf (Examples.uploadEvent "u1")
       "http://cdn.example/processed-videos/hls/u1/abc123/master.m3u8" ""].
Proof.
  destruct (completion_event_once
              (Examples.jobWorld (Examples.uploadEvent "u1") None true) "{}"
              (Examples.uploadEvent "u1") eq_refl)
    as (masterUrl & thumbnailURL & t & Hurl & _ & Hok).
  destruct (Hok eq_refl) as [Hpub _].
  injection Hurl as _ <-.
  rewrite Hpub. vm_compute in Hpub. injection Hpub as <-. reflexivity.
Defined.













End JobLifecycle.

(** ** The URL of a published blob, and its way back to the blob path *)

Section PublishedURL.

Import Transcoder URLForms.

(** The shape of the URL [buildAzureURL] builds, in its three modes. *)
Lemma buildAzureURL_modes (w : World) (blobPath : string) :
  (getenv w "MINIO_PUBLIC_BASE" ≠ "" →
   buildAzureURL w blobPath
   = ([], inr (TrimRight (getenv w "MINIO_PUBLIC_BASE") "/" +:+ "/" +:+ blobPath)))
  ∧ (getenv w "MINIO_PUBLIC_BASE" = "" → JobTrace.endpointOf w = "" →
     buildAzureURL w blobPath
     = ([ELog "MinIO endpoint not set, returning relative URL"], inr ("/" +:+ blobPath)))
  ∧ (getenv w "MINIO_PUBLIC_BASE" = "" → JobTrace.endpointOf w ≠ "" →
     buildAzureURL w blobPath
     = ([], inr ((if getenv w "MINIO_USE_SSL" =? "true" then "https" else "http")
                 +:+ "://"
                 +:+ (if negb (JobTrace.portOf w =? "")
                      then JobTrace.endpointOf w +:+ ":" +:+ JobTrace.portOf w
                      else JobTrace.endpointOf w)
                 +:+ "/" +:+ blobPath))).
Proof.
  unfold buildAzureURL, JobTrace.endpointOf, JobTrace.portOf. cbv zeta.
  repeat split.
  - intros Hbase. apply String.eqb_neq in Hbase. now rewrite Hbase.
  - intros -> ->. reflexivity.
  - intros -> Hend. apply String.eqb_neq in Hend. rewrite Hend. reflexivity.
Qed.

Lemma Contains_behind_slash (p sep' : string) :
  Contains ("/" +:+ p) (String "." sep') = false → Contains p (String "." sep') = false.
Proof.
  unfold Contains. intros H. apply bool_decide_eq_false in H.
  apply bool_decide_eq_false. intros [m Hm]. apply H.
  change ("/" +:+ p) with (String "/" p). cbn [Index]. unfold HasPrefix at 1.
  rewrite (prefix_head_ne "." "/" _ _ eq_refl), Hm. eauto.
Qed.

(** X5: the playback resolver finds the blob path back in the URL the
    transcoder publishes for it, in each mode of [buildAzureURL]: a
    public base that points at the bucket, an endpoint (the URL then
    holds no bucket, and the path must not start with the bucket name),
    and the relative URL built when no endpoint is configured. *)
Theorem published_url_resolves (w : World) (h : Playback.Handler)
    (blobPath url : string) (t : list Effect) :
  buildAzureURL w blobPath = (t, inr url) →
  HasPrefix blobPath "/" = false →
  Contains url cloudMarker = false →
  (∀ scheme host,
      getenv w "MINIO_PUBLIC_BASE" ≠ "" →
      TrimRight (getenv w "MINIO_PUBLIC_BASE") "/"
      = scheme +:+ host +:+ "/" +:+ Playback.bucket h →
      scheme = "http://" ∨ scheme = "https://" →
      Shape.noByte "/" host = true →
      Playback.extractBlobPath h url = blobPath)
  ∧ (getenv w "MINIO_PUBLIC_BASE" = "" → JobTrace.endpointOf w ≠ "" →
     Shape.noByte "/" (JobTrace.endpointOf w) = true →
     Shape.noByte "/" (JobTrace.portOf w) = true →
     HasPrefix blobPath (Playback.bucket h +:+ "/") = false →
     Playback.extractBlobPath h url = blobPath)
  ∧ (getenv w "MINIO_PUBLIC_BASE" = "" → JobTrace.endpointOf w = "" →
     HasPrefix blobPath "http://" || HasPrefix blobPath "https://" = false →
     Playback.extractBlobPath h url = blobPath).
Proof.
  intros Hbuild Hslash Hmarker.
  destruct (buildAzureURL_modes w blobPath) as (Hpublic & Hrelative & Hendpoint).
  repeat split.
  - intros scheme host Hbase Hshape Hscheme Hhost.
    assert (url = genericURL scheme host (Playback.bucket h) blobPath) as ->.
    { rewrite (Hpublic Hbase), Hshape in Hbuild. unfold genericURL.
      injection Hbuild as _ Hu. rewrite <- Hu. now rewrite !app_assoc_s. }
    now apply (generic_form_resolves h scheme host blobPath).
  - intros Hbase Hend Hnoe Hnop Hbucket.
    set (host := if negb (JobTrace.portOf w =? "")
                 then JobTrace.endpointOf w +:+ ":" +:+ JobTrace.portOf w
                 else JobTrace.endpointOf w) in *.
    assert (Hhost : Shape.noByte "/" host = true).
    { unfold host. destruct (negb (JobTrace.portOf w =? "")); [| exact Hnoe].
      now rewrite !noByte_app, Hnoe, Hnop. }
    assert (∃ scheme, (scheme = "http://" ∨ scheme = "https://")
                      ∧ url = scheme +:+ host +:+ "/" +:+ blobPath)
      as (scheme & Hscheme & ->).
    { rewrite (Hendpoint Hbase Hend) in Hbuild.
      destruct (getenv w "MINIO_USE_SSL" =? "true");
        [exists "https://" | exists "http://"]; (split; [auto |]);
        now injection Hbuild. }
    destruct (generic_split scheme host blobPath Hscheme Hhost) as [a Ha].
    assert (Hpre : HasPrefix (scheme +:+ host +:+ "/" +:+ blobPath) "http://"
                   || HasPrefix (scheme +:+ host +:+ "/" +:+ blobPath) "https://"
                   = true).
    { destruct Hscheme as [-> | ->]; unfold HasPrefix.
      - now rewrite (prefix_app "http://").
      - rewrite (prefix_app "https://"). apply orb_true_r. }
    rewrite (extractBlobPath_generic h _ _ _ _ _ _ (Contains_false _ _ Hmarker) Hpre Ha).
    unfold stripBucket.
    now rewrite (TrimPrefix_none _ _ Hbucket), (TrimPrefix_none _ _ Hslash).
  - intros Hbase Hend Hhttp.
    assert (url = "/" +:+ blobPath) as ->.
    { rewrite (Hrelative Hbase Hend) in Hbuild. now injection Hbuild. }
    apply (relative_form_resolves h blobPath); auto.
    now apply Contains_behind_slash.
Qed.

Lemma published_url_resolves_witness :
  Playback.extractBlobPath Examples.privateHandler
    "http://cdn.example/processed-videos/hls/u1/abc123/master.m3u8"
  = "hls/u1/abc123/master.m3u8".
Proof.
  destruct (published_url_resolves
              (Examples.jobWorld (Examples.uploadEvent "u1") None false)
              Examples.privateHandler "hls/u1/abc123/master.m3u8"
              "http://cdn.example/processed-videos/hls/u1/abc123/master.m3u8" []
              eq_refl eq_refl eq_refl) as (Hpublic & _ & _).
  apply (Hpublic "http://" "cdn.example"); try reflexivity.
  - discriminate.
  - now left.
Defined.






End PublishedURL.

(** ** Content types *)

Section ContentTypes.

Import Transcoder.

Lemma length_app_s (a b : string) :
  String.length (a +:+ b) = String.length a + String.length b.
Proof. induction a as [|x a IH]; cbn; [reflexivity | now rewrite IH]. Qed.

Lemma HasSuffix_app (a b : string) : HasSuffix (a +:+ b) b = true.
Proof.
  unfold HasSuffix. rewrite length_app_s.
  replace (String.length a + String.length b - String.length b) with (String.length a)
    by lia.
  rewrite drop_app, String.eqb_refl, andb_true_r. apply Nat.leb_le. lia.
Qed.

Lemma take_drop (n : nat) (s : string) : take n s +:+ GoStrings.drop n s = s.
Proof.
  unfold take. revert s. induction n as [|n IH]; intros [|a s]; cbn; try reflexivity.
  now rewrite IH.
Qed.

Lemma HasSuffix_inv (s suf : string) :
  HasSuffix s suf = true → ∃ pre, s = pre +:+ suf.
Proof.
  unfold HasSuffix. intros H. apply andb_true_iff in H as [_ H].
  apply String.eqb_eq in H.
  exists (take (String.length s - String.length suf) s).
  rewrite <- H at 2. symmetry. apply take_drop.
Qed.

(** Two suffixes of one string: one is a suffix of the other. *)
Lemma suffixes_comparable (p1 p2 a b : string) :
  p1 +:+ a = p2 +:+ b → HasSuffix a b = true ∨ HasSuffix b a = true.
Proof.
  revert p2. induction p1 as [|x p1 IH]; intros p2 H.
  - cbn in H. subst a. left. apply HasSuffix_app.
  - destruct p2 as [|y p2].
    + cbn [String.append] in H. subst b. right.
      change (String x (p1 +:+ a)) with (String x p1 +:+ a). apply HasSuffix_app.
    + cbn [String.append] in H. injection H as _ H. now apply IH in H.
Qed.

Lemma not_both_suffixes (s a b : string) :
  HasSuffix a b = false → HasSuffix b a = false →
  HasSuffix s a = true → HasSuffix s b = false.
Proof.
  intros Hab Hba Ha. destruct (HasSuffix s b) eqn:Hb; [| reflexivity].
  apply HasSuffix_inv in Ha as [p1 ->]. apply HasSuffix_inv in Hb as [p2 Hb].
  apply suffixes_comparable in Hb as [H | H]; congruence.
Qed.

Lemma ToLower_app (a b : string) : ToLower (a +:+ b) = ToLower a +:+ ToLower b.
Proof. induction a as [|x a IH]; cbn; [reflexivity | now rewrite IH]. Qed.

(** X7: [detectContentType] goes by the extension of the path, letter
    case put aside: [.m3u8] is a playlist, [.ts] a transport stream,
    [.jpg] and [.jpeg] a JPEG image, [.png] a PNG image, whatever the
    table of MIME types holds; and no path is given an empty content
    type. *)
Theorem detectContentType_by_extension (w : World) (stem ext : string) :
  (ToLower ext = ".m3u8" →
   detectContentType w (stem +:+ ext) = "application/vnd.apple.mpegurl")
  ∧ (ToLower ext = ".ts" → detectContentType w (stem +:+ ext) = "video/MP2T")
  ∧ (ToLower ext = ".jpg" ∨ ToLower ext = ".jpeg" →
     detectContentType w (stem +:+ ext) = "image/jpeg")
  ∧ (ToLower ext = ".png" → detectContentType w (stem +:+ ext) = "image/png")
  ∧ detectContentType w (stem +:+ ext) ≠ "".
Proof.
  unfold detectContentType. cbv zeta. rewrite ToLower_app.
  set (low := ToLower stem).
  repeat split.
  - intros ->. now rewrite HasSuffix_app.
  - intros ->.
    rewrite (not_both_suffixes (low +:+ ".ts") ".ts" ".m3u8" eq_refl eq_refl
               (HasSuffix_app _ _)).
    now rewrite HasSuffix_app.
  - intros [-> | ->].
    + rewrite (not_both_suffixes (low +:+ ".jpg") ".jpg" ".m3u8" eq_refl eq_refl
                 (HasSuffix_app _ _)).
      rewrite (not_both_suffixes (low +:+ ".jpg") ".jpg" ".ts" eq_refl eq_refl
                 (HasSuffix_app _ _)).
      now rewrite HasSuffix_app.
    + rewrite (not_both_suffixes (low +:+ ".jpeg") ".jpeg" ".m3u8" eq_refl eq_refl
                 (HasSuffix_app _ _)).
      rewrite (not_both_suffixes (low +:+ ".jpeg") ".jpeg" ".ts" eq_refl eq_refl
                 (HasSuffix_app _ _)).
      rewrite HasSuffix_app. now rewrite orb_true_r.
  - intros ->.
    rewrite (not_both_suffixes (low +:+ ".png") ".png" ".m3u8" eq_refl eq_refl
               (HasSuffix_app _ _)).
    rewrite (not_both_suffixes (low +:+ ".png") ".png" ".ts" eq_refl eq_refl
               (HasSuffix_app _ _)).
    rewrite (not_both_suffixes (low +:+ ".png") ".png" ".jpg" eq_refl eq_refl
               (HasSuffix_app _ _)).
    rewrite (not_both_suffixes (low +:+ ".png") ".png" ".jpeg" eq_refl eq_refl
               (HasSuffix_app _ _)).
    now rewrite HasSuffix_app.
  - repeat match goal with |- context [if ?c then _ else _] => destruct c eqn:? end;
      try discriminate.
    intros H. rewrite H in *. discriminate.
Qed.

Lemma detectContentType_by_extension_witness :
  detectContentType (Examples.jobWorld (Examples.uploadEvent "u1") None false)
    "/tmp/transcoder-abc123/hls/720p/SEG_000.TS" = "video/MP2T".
Proof.
  destruct (detectContentType_by_extension
              (Examples.jobWorld (Examples.uploadEvent "u1") None false)
              "/tmp/transcoder-abc123/hls/720p/SEG_000" ".TS") as (_ & Hts & _).
  exact (Hts eq_refl).
Defined.

End ContentTypes.

(** ** The playback handlers: what they fetch, relay and cache *)

Section PlaybackMore.

Import Playback.

Ltac run_request :=
  cbv [mbind mret P_bind P_ret Playback.bind Playback.ret queryFirst emit log
       fetchURL downloadBlob proxyM3U8 proxyBinary tryCache storeInCache
       cacheGet cacheSet];
  cbn beta iota.

Ltac split_cases :=
  repeat match goal with
         | |- context [match ?x with _ => _ end] =>
             lazymatch x with
             | context [match _ with _ => _ end] => fail
             | _ => destruct x eqn:?
             end
         end.

(** The entry a request has written is the one under its own key. *)
Ltac own_key H :=
  eexists; split; [reflexivity |];
  match type of H with
  | <[?key := _]> _ !! ?k ≠ _ =>
      destruct (decide (key = k)) as [<- | ?];
      [| now rewrite lookup_insert_ne in H]
  end;
  split; [reflexivity |]; split; [reflexivity |]; apply lookup_insert_eq.

(** X8: the master and the variant manifests are never cached: neither
    [GetMaster] nor [GetVariant] reads or writes the cache store, whatever
    the request, the mode and the answers of the collaborators, and each
    makes at most one fetch. *)
Theorem manifests_bypass_cache (h : Handler) (w : World)
    (uploadID rendition : string) (st : Store) :
  ((GetMaster h w uploadID st).1.2 = st
   ∧ Forall (fun e => PlaybackTrace.touchesCache e = false) (GetMaster h w uploadID st).2
   ∧ (length (List.filter PlaybackTrace.isRemoteFetch (GetMaster h w uploadID st).2)
      ≤ 1)%nat)
  ∧ ((GetVariant h w uploadID rendition st).1.2 = st
     ∧ Forall (fun e => PlaybackTrace.touchesCache e = false)
         (GetVariant h w uploadID rendition st).2
     ∧ (length (List.filter PlaybackTrace.isRemoteFetch
                  (GetVariant h w uploadID rendition st).2) ≤ 1)%nat).
Proof.
  split.
  - unfold GetMaster. run_request. split_cases; cbn;
      (split; [reflexivity | split; [repeat constructor | lia]]).
  - unfold GetVariant. run_request. split_cases; cbn;
      (split; [reflexivity | split; [repeat constructor | lia]]).
Qed.

(** X9: in public mode [GetMaster] answers 200 with the rewritten body
    of whatever the upstream has answered, an error page included, where
    [GetVariant] relays the status of the upstream with its body; both
    declare the content type of a playlist. *)
Theorem public_manifest_status (h : Handler) (w : World) (v : Video)
    (uploadID rendition : string) (resp : HTTPResponse) (st : Store) :
  s3client h = false →
  dbFirst w uploadID = Some v →
  (HLSMasterURL v ≠ "" →
   httpGet w (HLSMasterURL v) = inr resp →
   ∃ hs, GetMaster h w uploadID st
         = (Reply 200 hs (rewriteRenditionLines (Body resp)), st,
            [EQuery uploadID; EHttpGet (HLSMasterURL v)])
         ∧ hs !! "Content-Type" = Some mpegurl)
  ∧ (ManifestSpec.knownLabel rendition →
     httpGet w (baseHLSPath (HLSMasterURL v) +:+ "/" +:+ rendition +:+ "/index.m3u8")
     = inr resp →
     ∃ hs, GetVariant h w uploadID rendition st
           = (Reply (StatusCode resp) hs (Body resp), st,
              [EQuery uploadID;
               EHttpGet (baseHLSPath (HLSMasterURL v)
                         +:+ "/" +:+ rendition +:+ "/index.m3u8")])
           ∧ hs !! "Content-Type" = Some mpegurl).
Proof.
  intros Hpublic Hv. split.
  - intros Hready Hget. apply String.eqb_neq in Hready.
    unfold GetMaster. run_request. rewrite Hv, Hready, Hpublic. cbn [negb].
    rewrite Hget. eexists. split; [reflexivity |]. reflexivity.
  - intros Hr Hget. apply allowedRendition_known in Hr.
    unfold GetVariant. rewrite Hr. run_request. rewrite Hv, Hpublic, Hget.
    eexists. split; [reflexivity |]. reflexivity.
Qed.

Lemma public_manifest_status_witness :
  ∃ hs, GetMaster Examples.publicHandler (Examples.servingWorld Examples.oddManifest)
          "abc123" ∅
        = (Reply 200 hs (rewriteRenditionLines Examples.oddManifest), ∅,
           [EQuery "abc123";
            EHttpGet "http://minio:9000/processed-videos/hls/u1/abc123/master.m3u8"])
        ∧ hs !! "Content-Type" = Some mpegurl.
Proof.
  destruct (public_manifest_status Examples.publicHandler
              (Examples.servingWorld Examples.oddManifest) Examples.readyVideo
              "abc123" "720p"
              {| StatusCode := 200; Header := ∅; Body := Examples.oddManifest |} ∅
              eq_refl eq_refl) as [Hmaster _].
  apply Hmaster; [discriminate | reflexivity].
Defined.

Lemma setHeader_same (k v : string) (hs : gmap string string) :
  v ≠ "" → setHeader k v hs !! k = Some v.
Proof.
  intros Hv. apply String.eqb_neq in Hv. unfold setHeader. rewrite Hv.
  apply lookup_insert_eq.
Qed.

Lemma setHeader_other (k j v : string) (hs : gmap string string) :
  k ≠ j → setHeader k v hs !! j = hs !! j.
Proof.
  intros Hne. unfold setHeader.
  destruct (v =? ""); [now apply lookup_delete_ne | now apply lookup_insert_ne].
Qed.

Lemma copied_headers (headers : gmap string (list string)) (k : string) :
  map_fold (fun k v hs => match v with
                          | v0 :: _ => setHeader k v0 hs
                          | [] => hs
                          end) ∅ headers !! k
  = PlaybackTrace.relayed (headers !! k).
Proof.
  apply (map_fold_weak_ind
           (fun (hs : gmap string string) (m : gmap string (list string)) =>
              hs !! k = PlaybackTrace.relayed (m !! k))).
  - reflexivity.
  - intros i x m r Hi IH. destruct (decide (i = k)) as [-> | Hne].
    + rewrite lookup_insert_eq. rewrite Hi in IH. cbn in IH.
      destruct x as [|v0 x]; [exact IH |]. unfold setHeader. cbn.
      destruct (v0 =? ""); [apply lookup_delete_eq | apply lookup_insert_eq].
    + rewrite lookup_insert_ne by exact Hne. rewrite <- IH.
      destruct x as [|v0 x]; [reflexivity |]. unfold setHeader.
      destruct (v0 =? ""); [now apply lookup_delete_ne | now apply lookup_insert_ne].
Qed.

(** X10: in public mode a segment is relayed from the upstream and the
    cache store is neither read nor written: the client gets the status
    and the body of the upstream, each of its headers with the first of
    its values unless that value is empty, and [Cache-Control] forced to
    [public, max-age=60] whatever the upstream said. *)
Theorem public_segment_relayed (h : Handler) (w : World) (v : Video)
    (uploadID rendition segment : string) (resp : HTTPResponse) (st : Store) :
  s3client h = false →
  ManifestSpec.knownLabel rendition →
  HasSuffix segment ".ts" || HasSuffix segment ".m4s" = true →
  dbFirst w uploadID = Some v →
  httpGet w (baseHLSPath (HLSMasterURL v) +:+ "/" +:+ rendition +:+ "/" +:+ segment)
  = inr resp →
  ∃ r, GetSegment h w uploadID rendition segment st
       = (r, st,
          [EQuery uploadID;
           EHttpGet (baseHLSPath (HLSMasterURL v)
                     +:+ "/" +:+ rendition +:+ "/" +:+ segment)])
       ∧ statusOf r = StatusCode resp
       ∧ bodyOf r = Body resp
       ∧ PlaybackTrace.headersOf r !! "Cache-Control" = Some "public, max-age=60"
       ∧ ∀ k, k ≠ "Cache-Control" →
              PlaybackTrace.headersOf r !! k = PlaybackTrace.relayed (Header resp !! k).
Proof.
  intros Hpublic Hr Hs Hv Hget. unfold GetSegment.
  rewrite (segment_validated rendition segment Hr Hs).
  run_request. rewrite Hv, Hpublic, Hget.
  eexists. split; [reflexivity |]. cbn [statusOf bodyOf PlaybackTrace.headersOf].
  split; [reflexivity |]. split; [reflexivity |].
  split; [now apply setHeader_same |].
  intros k Hk. rewrite setHeader_other by congruence. apply copied_headers.
Qed.

Lemma public_segment_relayed_witness :
  ∃ r, GetSegment Examples.publicHandler (Examples.servingWorld "segment bytes")
         "abc123" "720p" "seg_000.ts" ∅
       = (r, ∅,
          [EQuery "abc123";
           EHttpGet "http://minio:9000/processed-videos/hls/u1/abc123/720p/seg_000.ts"])
       ∧ statusOf r = 200%Z
       ∧ bodyOf r = "segment bytes"
       ∧ PlaybackTrace.headersOf r !! "Cache-Control" = Some "public, max-age=60"
       ∧ ∀ k, k ≠ "Cache-Control" → PlaybackTrace.headersOf r !! k = None.
Proof.
  assert (Hr : ManifestSpec.knownLabel "720p") by (right; left; reflexivity).
  exact (public_segment_relayed Examples.publicHandler
           (Examples.servingWorld "segment bytes") Examples.readyVideo
           "abc123" "720p" "seg_000.ts"
           {| StatusCode := 200; Header := ∅; Body := "segment bytes" |} ∅
           eq_refl Hr eq_refl eq_refl eq_refl).
Defined.

(** X11: a request for a segment or for a thumbnail changes at most one
    entry of the cache store, the one under its own key (the kind, the
    uploadId of the request and the blob path), and only when it answers
    200: the entry then holds the bytes it has served.  A failed fetch is
    never cached. *)
Theorem cache_writes_own_key (h : Handler) (w : World)
    (uploadID rendition segment : string) (st : Store) (k : CacheKey) :
  ((GetSegment h w uploadID rendition segment st).1.2 !! k ≠ st !! k →
   ∃ v, dbFirst w uploadID = Some v
        ∧ k = CacheSpec.segmentKey h v uploadID rendition segment
        ∧ statusOf (GetSegment h w uploadID rendition segment st).1.1 = 200%Z
        ∧ (GetSegment h w uploadID rendition segment st).1.2 !! k
          = Some (bodyOf (GetSegment h w uploadID rendition segment st).1.1))
  ∧ ((GetThumbnail h w uploadID st).1.2 !! k ≠ st !! k →
     ∃ v, dbFirst w uploadID = Some v
          ∧ k = GenerateKey "thumbnail" uploadID (PlaybackTrace.thumbnailBlobPath v)
          ∧ statusOf (GetThumbnail h w uploadID st).1.1 = 200%Z
          ∧ (GetThumbnail h w uploadID st).1.2 !! k
            = Some (bodyOf (GetThumbnail h w uploadID st).1.1)).
Proof.
  split.
  - unfold GetSegment. run_request. split_cases; cbn [fst snd];
      intros Hk; try congruence; own_key Hk.
  - unfold GetThumbnail. run_request. split_cases; cbn [fst snd];
      intros Hk; try congruence; own_key Hk.
Qed.

Lemma cache_writes_own_key_witness :
  let h := Examples.privateHandler in
  let w := Examples.playbackWorld Examples.readyVideo false in
  let k := GenerateKey "segment" "abc123" "hls/u1/abc123/720p/seg_000.ts" in
  ∃ v, dbFirst w "abc123" = Some v
       ∧ k = CacheSpec.segmentKey h v "abc123" "720p" "seg_000.ts"
       ∧ statusOf (GetSegment h w "abc123" "720p" "seg_000.ts" ∅).1.1 = 200%Z
       ∧ (GetSegment h w "abc123" "720p" "seg_000.ts" ∅).1.2 !! k
         = Some (bodyOf (GetSegment h w "abc123" "720p" "seg_000.ts" ∅).1.1).
Proof.
  cbv zeta.
  apply (proj1 (cache_writes_own_key Examples.privateHandler
                  (Examples.playbackWorld Examples.readyVideo false)
                  "abc123" "720p" "seg_000.ts" ∅
                  (GenerateKey "segment" "abc123" "hls/u1/abc123/720p/seg_000.ts"))).
  assert (Hr : ManifestSpec.knownLabel "720p") by (right; left; reflexivity).
  destruct (segment_miss Examples.privateHandler
              (Examples.playbackWorld Examples.readyVideo false) Examples.readyVideo
              "abc123" "720p" "seg_000.ts" eq_refl eq_refl Hr eq_refl eq_refl
              ∅ "bytes of hls/u1/abc123/720p/seg_000.ts"
              (or_intror (lookup_empty _)) eq_refl)
    as (r & -> & _).
  cbn [fst snd].
  change (CacheSpec.segmentKey Examples.privateHandler Examples.readyVideo
            "abc123" "720p" "seg_000.ts")
    with (GenerateKey "segment" "abc123" "hls/u1/abc123/720p/seg_000.ts").
  change (cacheSetErr (Examples.playbackWorld Examples.readyVideo false)
            (GenerateKey "segment" "abc123" "hls/u1/abc123/720p/seg_000.ts"))
    with (@None string).
  cbv beta iota. rewrite lookup_insert_eq, lookup_empty. discriminate.
Defined.

(** X12: in private mode the thumbnail is read through the cache under
    the key of kind [thumbnail], and fetched at
    [thumbnails/<userId>/<uploadId>.jpg], the identifiers being those of
    the descriptor; the stored thumbnail URL only has to be non-empty.  A
    hit is served without a fetch; a miss is fetched, written to the
    cache and served as a JPEG image; a failed fetch is answered 404,
    "Thumbnail not found", and leaves the cache store as it was. *)
Theorem thumbnail_read_through (h : Handler) (w : World) (v : Video)
    (uploadID : string) (st : Store) (data : string) :
  s3client h = true →
  cache h = true →
  dbFirst w uploadID = Some v →
  ThumbnailURL v ≠ "" →
  let path := PlaybackTrace.thumbnailBlobPath v in
  let key := GenerateKey "thumbnail" uploadID path in
  (cacheGetErr w key = None → st !! key = Some data →
   ∃ hs, GetThumbnail h w uploadID st
         = (Reply 200 hs data, st, [EQuery uploadID; ECacheGet key])
         ∧ hs !! "Content-Type" = Some "image/jpeg")
  ∧ (cacheGetErr w key = None → cacheSetErr w key = None → st !! key = None →
     getObject w (bucket h) path = inr data →
     ∃ hs, GetThumbnail h w uploadID st
           = (Reply 200 hs data, <[key := data]> st,
              [EQuery uploadID; ECacheGet key; EGetObject (bucket h) path;
               ECacheSet key data])
           ∧ hs !! "Content-Type" = Some "image/jpeg")
  ∧ (∀ e, cacheGetErr w key = None → st !! key = None →
          getObject w (bucket h) path = inl e →
          GetThumbnail h w uploadID st
          = (cString ∅ 404 "Thumbnail not found", st,
             [EQuery uploadID; ECacheGet key; EGetObject (bucket h) path;
              ELog "thumbnail download"])).
Proof.
  intros Hprivate Hcache Hv Hurl path key. apply String.eqb_neq in Hurl.
  repeat split.
  - intros Hget Hhit. unfold GetThumbnail. run_request.
    rewrite Hv, Hurl, Hprivate, Hcache.
    change (GenerateKey "thumbnail" uploadID
              ("thumbnails/" +:+ UserID v +:+ "/" +:+ UploadID v +:+ ".jpg")) with key.
    rewrite Hget, Hhit. eexists. split; reflexivity.
  - intros Hget Hset Hmiss Hobj. unfold GetThumbnail. run_request.
    rewrite Hv, Hurl, Hprivate, Hcache.
    change ("thumbnails/" +:+ UserID v +:+ "/" +:+ UploadID v +:+ ".jpg") with path.
    change (GenerateKey "thumbnail" uploadID path) with key.
    rewrite Hget, Hmiss, Hobj, Hset. eexists. split; reflexivity.
  - intros e Hget Hmiss Hobj. unfold GetThumbnail. run_request.
    rewrite Hv, Hurl, Hprivate, Hcache.
    change ("thumbnails/" +:+ UserID v +:+ "/" +:+ UploadID v +:+ ".jpg") with path.
    change (GenerateKey "thumbnail" uploadID path) with key.
    rewrite Hget, Hmiss, Hobj. reflexivity.
Qed.

Lemma thumbnail_read_through_witness :
  ∃ hs, GetThumbnail Examples.privateHandler
          (Examples.playbackWorld Examples.readyVideo false) "abc123" ∅
        = (Reply 200 hs "bytes of thumbnails/u1/abc123.jpg",
           <[GenerateKey "thumbnail" "abc123" "thumbnails/u1/abc123.jpg"
             := "bytes of thumbnails/u1/abc123.jpg"]> ∅,
           [EQuery "abc123";
            ECacheGet (GenerateKey "thumbnail" "abc123" "thumbnails/u1/abc123.jpg");
            EGetObject "processed-videos" "thumbnails/u1/abc123.jpg";
            ECacheSet (GenerateKey "thumbnail" "abc123" "thumbnails/u1/abc123.jpg")
              "bytes of thumbnails/u1/abc123.jpg"])
        ∧ hs !! "Content-Type" = Some "image/jpeg".
Proof.
  destruct (thumbnail_read_through Examples.privateHandler
              (Examples.playbackWorld Examples.readyVideo false) Examples.readyVideo
              "abc123" ∅ "bytes of thumbnails/u1/abc123.jpg" eq_refl eq_refl eq_refl)
    as (_ & Hmiss & _); [discriminate |].
  exact (Hmiss eq_refl eq_refl eq_refl eq_refl).
Defined.
(** X22: in private mode the three HLS handlers fetch from the object
    store only, from the bucket of the handler, and at a key derived
    from the stored manifest URL: [GetMaster] at the blob path of the
    URL, [GetVariant] at [<base>/<rendition>/index.m3u8] and
    [GetSegment] at [<base>/<rendition>/<segment>], the base being that
    blob path without its [/master.m3u8]. *)
Theorem private_fetch_keys (h : Handler) (w : World) (v : Video)
    (uploadID rendition segment : string) (st : Store) (e : Effect) :
  s3client h = true →
  dbFirst w uploadID = Some v →
  PlaybackTrace.isRemoteFetch e = true →
  (e ∈ (GetMaster h w uploadID st).2 →
   e = EGetObject (bucket h) (extractBlobPath h (HLSMasterURL v)))
  ∧ (e ∈ (GetVariant h w uploadID rendition st).2 →
     e = EGetObject (bucket h)
           (blobBase h (HLSMasterURL v) +:+ "/" +:+ rendition +:+ "/index.m3u8"))
  ∧ (e ∈ (GetSegment h w uploadID rendition segment st).2 →
     e = EGetObject (bucket h) (CacheSpec.segmentBlobPath h v rendition segment)).
Proof.
  intros Hprivate Hdb Hfetch. unfold CacheSpec.segmentBlobPath.
  repeat split.
  - unfold GetMaster. run_request. rewrite Hdb, Hprivate. cbn [negb].
    split_cases; cbn [fst snd app]; intros Hin;
      repeat (apply elem_of_cons in Hin as [-> | Hin]; [try discriminate; try reflexivity |]);
      now apply elem_of_nil in Hin.
  - unfold GetVariant. run_request. rewrite ?Hdb, ?Hprivate.
    split_cases; cbn [fst snd app]; rewrite ?Hdb; intros Hin;
      repeat (apply elem_of_cons in Hin as [-> | Hin]; [try discriminate; try reflexivity |]);
      now apply elem_of_nil in Hin.
  - unfold GetSegment. run_request. rewrite ?Hdb, ?Hprivate.
    split_cases; cbn [fst snd app]; rewrite ?Hdb; intros Hin;
      repeat (apply elem_of_cons in Hin as [-> | Hin]; [try discriminate; try reflexivity |]);
      now apply elem_of_nil in Hin.
Qed.

Lemma private_fetch_keys_witness :
  EGetObject "processed-videos" "hls/u1/abc123/720p/seg_000.ts"
  = EGetObject (bucket Examples.privateHandler)
      (CacheSpec.segmentBlobPath Examples.privateHandler Examples.readyVideo
         "720p" "seg_000.ts").
Proof.
  refine (proj2 (proj2 (private_fetch_keys Examples.privateHandler
                          (Examples.servingWorld "segment bytes") Examples.readyVideo
                          "abc123" "720p" "seg_000.ts" ∅
                          (EGetObject "processed-videos" "hls/u1/abc123/720p/seg_000.ts")
                          eq_refl eq_refl eq_refl)) _).
  vm_compute. repeat constructor.
Defined.

End PlaybackMore.

(** ** From the upload to the playback *)

Section EndToEnd.

Import Playback URLForms.

Lemma TrimSuffix_app (a suf : string) : TrimSuffix (a +:+ suf) suf = a.
Proof.
  unfold TrimSuffix. rewrite HasSuffix_app, length_app_s.
  replace (String.length a + String.length suf - String.length suf)
    with (String.length a) by lia.
  apply take_app.
Qed.

Lemma cleanRel_pair (a b : string) :
  Shape.plainSegment a = true → Shape.plainSegment b = true →
  Shape.cleanRel (a +:+ "/" +:+ b) = true.
Proof.
  intros Ha Hb. unfold Shape.cleanRel.
  replace (GoPath.components (a +:+ "/" +:+ b)) with [a; b].
  - cbn [forallb]. now rewrite Ha, Hb.
  - symmetry. apply (components_Join [a; b]); [discriminate |].
    cbn [forallb]. now rewrite Ha, Hb.
Qed.

(** X13: what the transcoder uploads is what the playback service
    fetches.  For a user and an upload whose identifiers are plain path
    elements, and a descriptor whose manifest URL is the generic URL of
    [hls/<userId>/<uploadId>/master.m3u8] in the bucket of the handler,
    the keys [GetMaster], [GetVariant] and [GetSegment] ask the object
    store for are the blob names [UploadDir] gives to [master.m3u8], to
    [<rendition>/index.m3u8] and to [<rendition>/<segment>]. *)
Theorem playback_reads_what_was_uploaded (evt : Transcoder.UploadEvent) (h : Handler)
    (v : Video) (scheme host rendition segment : string) :
  Shape.plainSegment (Transcoder.UserID evt) = true →
  Shape.plainSegment (Transcoder.UploadID evt) = true →
  Shape.plainSegment rendition = true →
  Shape.plainSegment segment = true →
  scheme = "http://" ∨ scheme = "https://" →
  Shape.noByte "/" host = true →
  HLSMasterURL v
  = genericURL scheme host (bucket h) (Transcoder.hlsBase evt +:+ "/master.m3u8") →
  Contains (HLSMasterURL v) cloudMarker = false →
  extractBlobPath h (HLSMasterURL v)
  = GoPath.ToSlash (GoPath.Join [Transcoder.hlsBase evt; "master.m3u8"])
  ∧ blobBase h (HLSMasterURL v) +:+ "/" +:+ rendition +:+ "/index.m3u8"
    = GoPath.ToSlash (GoPath.Join [Transcoder.hlsBase evt; rendition +:+ "/index.m3u8"])
  ∧ CacheSpec.segmentBlobPath h v rendition segment
    = GoPath.ToSlash (GoPath.Join [Transcoder.hlsBase evt; rendition +:+ "/" +:+ segment]).
Proof.
  intros Hu Hi Hr Hs Hscheme Hhost Hurl Hmarker.
  assert (Hpath : extractBlobPath h (HLSMasterURL v)
                  = Transcoder.hlsBase evt +:+ "/master.m3u8").
  { rewrite Hurl in *. now apply generic_form_resolves. }
  assert (Hbase : blobBase h (HLSMasterURL v) = Transcoder.hlsBase evt).
  { unfold blobBase. rewrite Hpath. apply TrimSuffix_app. }
  unfold CacheSpec.segmentBlobPath. rewrite Hpath, Hbase.
  rewrite !hls_blob_name; auto.
  - unfold Transcoder.hlsBase. now rewrite !app_assoc_s.
  - now apply cleanRel_pair.
  - now apply (cleanRel_pair rendition "index.m3u8").
Qed.

Lemma playback_reads_what_was_uploaded_witness :
  extractBlobPath Examples.privateHandler (HLSMasterURL Examples.readyVideo)
  = GoPath.ToSlash (GoPath.Join [Transcoder.hlsBase (Examples.uploadEvent "u1");
                                 "master.m3u8"])
  ∧ blobBase Examples.privateHandler (HLSMasterURL Examples.readyVideo)
    +:+ "/" +:+ "720p" +:+ "/index.m3u8"
    = GoPath.ToSlash (GoPath.Join [Transcoder.hlsBase (Examples.uploadEvent "u1");
                                   "720p" +:+ "/index.m3u8"])
  ∧ CacheSpec.segmentBlobPath Examples.privateHandler Examples.readyVideo
      "720p" "seg_000.ts"
    = GoPath.ToSlash (GoPath.Join [Transcoder.hlsBase (Examples.uploadEvent "u1");
                                   "720p" +:+ "/" +:+ "seg_000.ts"]).
Proof.
  apply (playback_reads_what_was_uploaded (Examples.uploadEvent "u1")
           Examples.privateHandler Examples.readyVideo "http://" "minio:9000"
           "720p" "seg_000.ts"); try reflexivity.
  now left.
Defined.

End EndToEnd.

(** ** Deleting by prefix: the storage client and the adapter *)

Section StorageDeletion.

Import BlobStore.

Lemma deletedKeys_cons (e : Effect) (t : list Effect) :
  deletedKeys (e :: t)
  = (match e with EDeleteObject _ key => [key] | _ => [] end ++ deletedKeys t)%list.
Proof. destruct e; reflexivity. Qed.

Lemma deletedKeys_app (t1 t2 : list Effect) :
  deletedKeys (t1 ++ t2) = (deletedKeys t1 ++ deletedKeys t2)%list.
Proof. apply omap_app. Qed.

Lemma batches_cons (e : Effect) (t : list Effect) :
  batches (e :: t)
  = (match e with EDeleteObjects _ objects => [objects] | _ => [] end ++ batches t)%list.
Proof. destruct e; reflexivity. Qed.

Lemma batches_app (t1 t2 : list Effect) :
  batches (t1 ++ t2) = (batches t1 ++ batches t2)%list.
Proof. apply omap_app. Qed.

Lemma pagesAsked_cons (e : Effect) (t : list Effect) :
  pagesAsked (e :: t)
  = (match e with EListPage _ _ => 1 | _ => 0 end + pagesAsked t)%nat.
Proof. destruct e; reflexivity. Qed.

Lemma pagesAsked_app (t1 t2 : list Effect) :
  pagesAsked (t1 ++ t2) = (pagesAsked t1 + pagesAsked t2)%nat.
Proof. unfold pagesAsked. now rewrite List.filter_app, length_app. Qed.

Lemma listedObjects_cons (contents : list (option string)) (pages : list Page) :
  listedObjects (inr contents :: pages) = (contents ++ listedObjects pages)%list.
Proof. reflexivity. Qed.

Lemma listedKeys_cons (contents : list (option string)) (pages : list Page) :
  listedKeys (inr contents :: pages) = (omap id contents ++ listedKeys pages)%list.
Proof. unfold listedKeys. rewrite listedObjects_cons. apply omap_app. Qed.

Lemma keys_cons (o : option string) (contents : list (option string)) :
  omap id (o :: contents)
  = (match o with Some key => [key] | None => [] end ++ omap id contents)%list.
Proof. destruct o; reflexivity. Qed.

Lemma prefix_behind {A} (k l1 l2 : list A) :
  l1 `prefix_of` l2 → (k ++ l1)%list `prefix_of` (k ++ l2)%list.
Proof. intros [x ->]. exists x. now rewrite <- app_assoc. Qed.

(** The inner loop deletes the keys of a page in order and stops at the
    first failure; it asks for no page. *)
Lemma deleteContents_keys (c : S3Client) (w : World) (contents : list (option string)) :
  deletedKeys (deleteContents c w contents).1 `prefix_of` omap id contents
  ∧ pagesAsked (deleteContents c w contents).1 = 0
  ∧ ((deleteContents c w contents).2 = None →
     deletedKeys (deleteContents c w contents).1 = omap id contents).
Proof.
  induction contents as [|[key|] rest (IHp & IHq & IHe)]; cbn [deleteContents].
  - split; [apply prefix_nil | now split].
  - rewrite keys_cons. unfold DeleteBlob.
    destruct (deleteObject w (processedBucket c) key) as [e|].
    + split; [| split; [reflexivity | discriminate]]. cbn [fst].
      rewrite deletedKeys_cons. apply prefix_behind, prefix_nil.
    + destruct (deleteContents c w rest) as [t' r]. cbn [fst snd app] in *.
      rewrite deletedKeys_cons, pagesAsked_cons. split; [| split].
      * now apply (prefix_behind [key]).
      * exact IHq.
      * intros Hr. now rewrite (IHe Hr).
  - rewrite keys_cons. cbn [app]. now repeat split.
Qed.

Lemma deletePages_keys (c : S3Client) (w : World) (prefix : string) (pages : list Page) :
  deletedKeys (deletePages c w prefix pages).1 `prefix_of` listedKeys pages
  ∧ ((deletePages c w prefix pages).2 = None →
     delivered pages = true
     ∧ deletedKeys (deletePages c w prefix pages).1 = listedKeys pages
     ∧ pagesAsked (deletePages c w prefix pages).1 = length pages).
Proof.
  induction pages as [|[e|contents] rest [IHp IHe]]; cbn [deletePages].
  - split; [apply prefix_nil | now repeat split].
  - split; [| discriminate]. apply prefix_nil.
  - rewrite listedKeys_cons.
    destruct (deleteContents_keys c w contents) as (Hp & Hq & He).
    destruct (deleteContents c w contents) as [t [e|]]; cbn [fst snd] in *.
    + split; [| discriminate]. rewrite deletedKeys_cons. cbn [app].
      destruct Hp as [k ->]. rewrite <- app_assoc. now exists (k ++ listedKeys rest)%list.
    + specialize (He eq_refl).
      destruct (deletePages c w prefix rest) as [t' r']. cbn [fst snd] in *.
      rewrite deletedKeys_cons, pagesAsked_cons, deletedKeys_app, pagesAsked_app.
      cbn [app]. rewrite He, Hq. split.
      * now apply prefix_behind.
      * intros Hr. destruct (IHe Hr) as (Hd & Hk & Hn).
        cbn [delivered forallb length]. fold (delivered rest).
        now rewrite Hd, Hk, Hn.
Qed.

(** X14: the storage client of the transcoder deletes by prefix key by
    key, in the order of the listing: whatever the object store answers,
    the keys it has asked to delete are a prefix of the keys listed; and
    when it returns no error, every page was delivered, it has asked for
    each page once, and every key listed was deleted. *)
Theorem prefix_delete_in_listing_order (c : S3Client) (w : World) (prefix : string) :
  let pages := listPages w (processedBucket c) prefix in
  deletedKeys (DeleteBlobsWithPrefix c w prefix).1 `prefix_of` listedKeys pages
  ∧ ((DeleteBlobsWithPrefix c w prefix).2 = None →
     delivered pages = true
     ∧ deletedKeys (DeleteBlobsWithPrefix c w prefix).1 = listedKeys pages
     ∧ pagesAsked (DeleteBlobsWithPrefix c w prefix).1 = length pages).
Proof. apply deletePages_keys. Qed.

Lemma prefix_delete_in_listing_order_witness :
  let pages :=
    listPages DeletionExamples.wholeListing "processed-videos" "hls/u1/abc123/" in
  delivered pages = true
  ∧ deletedKeys (DeleteBlobsWithPrefix DeletionExamples.client
                   DeletionExamples.wholeListing "hls/u1/abc123/").1
    = listedKeys pages
  ∧ pagesAsked (DeleteBlobsWithPrefix DeletionExamples.client
                  DeletionExamples.wholeListing "hls/u1/abc123/").1
    = length pages.
Proof.
  exact (proj2 (prefix_delete_in_listing_order DeletionExamples.client
                  DeletionExamples.wholeListing "hls/u1/abc123/") eq_refl).
Defined.

Lemma collectPages_spec (bucket prefix : string) (pages : list Page)
    (acc : list (option string)) :
  deletedKeys (Adapter.collectPages bucket prefix pages acc).1 = []
  ∧ batches (Adapter.collectPages bucket prefix pages acc).1 = []
  ∧ (if delivered pages
     then (Adapter.collectPages bucket prefix pages acc).2
          = inr (acc ++ listedObjects pages)%list
     else ∃ e, (Adapter.collectPages bucket prefix pages acc).2 = inl e).
Proof.
  revert acc. induction pages as [|[e|contents] rest IH]; intros acc;
    cbn [Adapter.collectPages delivered forallb].
  - cbn [listedObjects flat_map]. now rewrite app_nil_r.
  - cbn [andb]. repeat split. eauto.
  - specialize (IH (acc ++ contents)%list). fold (delivered rest). cbn [andb].
    destruct (Adapter.collectPages bucket prefix rest (acc ++ contents)) as [t r].
    cbn [fst snd] in *. rewrite deletedKeys_cons, batches_cons. cbn [app].
    destruct IH as (Hk & Hb & Hr). repeat split; [exact Hk | exact Hb |].
    rewrite listedObjects_cons, app_assoc. exact Hr.
Qed.

(** X15: the adapter of the catalog deletes by prefix in one batch: it
    never deletes key by key; when a page of the listing fails it
    deletes nothing and returns an error; when the listing holds no
    object it sends no request and returns no error; otherwise it sends
    one [DeleteObjects] request with every object listed, in the order
    of the listing, and returns what that request returns. *)
Theorem adapter_deletes_in_one_batch (w : World) (bucket prefix : string) :
  let pages := listPages w bucket prefix in
  let run := Adapter.DeleteBlobsWithPrefix w bucket prefix in
  deletedKeys run.1 = []
  ∧ (if delivered pages
     then match listedObjects pages with
          | [] => batches run.1 = [] ∧ run.2 = None
          | objects => batches run.1 = [objects]
                       ∧ run.2 = deleteObjects w bucket objects
          end
     else batches run.1 = [] ∧ is_Some run.2).
Proof.
  cbv zeta. unfold Adapter.DeleteBlobsWithPrefix.
  destruct (collectPages_spec bucket prefix (listPages w bucket prefix) [])
    as (Hk & Hb & Hr).
  destruct (Adapter.collectPages bucket prefix (listPages w bucket prefix) [])
    as [t r]. cbn [fst snd app] in *.
  destruct (delivered (listPages w bucket prefix)).
  - subst r. destruct (listedObjects (listPages w bucket prefix)) as [|o os].
    + cbn [length Nat.eqb fst snd]. now repeat split.
    + cbn [length Nat.eqb fst snd]. rewrite deletedKeys_app, batches_app, Hk, Hb.
      now repeat split.
  - destruct Hr as [e ->]. cbn [fst snd]. repeat split; eauto.
Qed.

(** X16: where the two differ.  When the listing fails after some pages
    were delivered, and the deletions of their keys succeed, the storage
    client of the transcoder has already deleted the keys of those
    pages, the adapter of the catalog has deleted nothing; both return
    the same error. *)
Theorem listing_failure_after_deletions (c : S3Client) (w : World) (prefix e : string)
    (good : list (list (option string))) (rest : list Page) :
  listPages w (processedBucket c) prefix = ((inr <$> good) ++ inl e :: rest)%list →
  (∀ key, key ∈ listedKeys (inr <$> good) →
          deleteObject w (processedBucket c) key = None) →
  let failure := Some ("failed to list objects with prefix " +:+ prefix +:+ ": " +:+ e) in
  deletedKeys (DeleteBlobsWithPrefix c w prefix).1 = listedKeys (inr <$> good)
  ∧ (DeleteBlobsWithPrefix c w prefix).2 = failure
  ∧ deletedKeys (Adapter.DeleteBlobsWithPrefix w (processedBucket c) prefix).1 = []
  ∧ batches (Adapter.DeleteBlobsWithPrefix w (processedBucket c) prefix).1 = []
  ∧ (Adapter.DeleteBlobsWithPrefix w (processedBucket c) prefix).2 = failure.
Proof.
  intros Hpages Hdel. cbv zeta.
  assert (Hclient : deletedKeys (deletePages c w prefix ((inr <$> good) ++ inl e :: rest)).1
                    = listedKeys (inr <$> good)
                    ∧ (deletePages c w prefix ((inr <$> good) ++ inl e :: rest)).2
                      = Some ("failed to list objects with prefix " +:+ prefix +:+ ": " +:+ e)).
  { clear Hpages. induction good as [|contents good IH]; cbn [fmap list_fmap app deletePages] in Hdel |- *.
    - now split.
    - change (list_fmap _ _ inr good) with (inr (A := string) <$> good) in *.
      rewrite listedKeys_cons in Hdel |- *.
      assert (Hc : deleteContents c w contents
                   = (EDeleteObject (processedBucket c) <$> omap id contents, None)).
      { assert (Hin : ∀ key, key ∈ omap id contents →
                             deleteObject w (processedBucket c) key = None).
        { intros key Hkey. apply Hdel, elem_of_app. now left. }
        clear -Hin. induction contents as [|[key|] more IH]; cbn [deleteContents].
        - reflexivity.
        - rewrite keys_cons in Hin. unfold DeleteBlob.
          rewrite (Hin key) by (apply elem_of_cons; now left).
          rewrite IH by (intros k Hk; apply Hin, elem_of_cons; now right).
          reflexivity.
        - apply IH. intros k Hk. now apply Hin. }
      rewrite Hc.
      destruct IH as [IHk IHr].
      { intros key Hkey. apply Hdel, elem_of_app. now right. }
      destruct (deletePages c w prefix ((inr <$> good) ++ inl e :: rest)) as [t' r'].
      cbn [fst snd] in *. rewrite deletedKeys_cons, deletedKeys_app, IHk. cbn [app].
      split; [| exact IHr]. f_equal.
      clear. induction (omap id contents) as [|k ks IH]; [reflexivity |].
      cbn [fmap list_fmap]. rewrite deletedKeys_cons. cbn [app]. f_equal. exact IH. }
  unfold DeleteBlobsWithPrefix, Adapter.DeleteBlobsWithPrefix.
  rewrite Hpages. destruct Hclient as [-> ->]. split; [reflexivity |].
  split; [reflexivity |].
  assert (Hadapter : ∀ acc,
            Adapter.collectPages (processedBucket c) prefix
              ((inr <$> good) ++ inl e :: rest) acc
            = (replicate (S (length good)) (EListPage (processedBucket c) prefix),
               inl ("failed to list objects with prefix " +:+ prefix +:+ ": " +:+ e))).
  { clear. induction good as [|contents good IH]; intros acc;
      cbn [fmap list_fmap app Adapter.collectPages]; [reflexivity |].
    change (list_fmap _ _ inr good) with (inr (A := string) <$> good).
    now rewrite IH. }
  rewrite Hadapter. cbn [fst snd].
  assert (Hq : ∀ n, deletedKeys (replicate n (EListPage (processedBucket c) prefix)) = []
                    ∧ batches (replicate n (EListPage (processedBucket c) prefix)) = []).
  { induction n as [|n [IH1 IH2]]; [now split |].
    cbn [replicate]. now rewrite deletedKeys_cons, batches_cons. }
  destruct (Hq (S (length good))) as [-> ->]. now repeat split.
Qed.

Lemma listing_failure_after_deletions_witness :
  let c := DeletionExamples.client in
  let w := DeletionExamples.brokenListing in
  deletedKeys (DeleteBlobsWithPrefix c w "hls/u1/abc123/").1
  = ["hls/u1/abc123/master.m3u8"; "hls/u1/abc123/720p/index.m3u8"]
  ∧ (DeleteBlobsWithPrefix c w "hls/u1/abc123/").2
    = Some "failed to list objects with prefix hls/u1/abc123/: timeout"
  ∧ deletedKeys (Adapter.DeleteBlobsWithPrefix w "processed-videos" "hls/u1/abc123/").1 = []
  ∧ batches (Adapter.DeleteBlobsWithPrefix w "processed-videos" "hls/u1/abc123/").1 = []
  ∧ (Adapter.DeleteBlobsWithPrefix w "processed-videos" "hls/u1/abc123/").2
    = Some "failed to list objects with prefix hls/u1/abc123/: timeout".
Proof.
  exact (listing_failure_after_deletions DeletionExamples.client
           DeletionExamples.brokenListing "hls/u1/abc123/" "timeout"
           [[Some "hls/u1/abc123/master.m3u8"; None; Some "hls/u1/abc123/720p/index.m3u8"]]
           [inr [Some "hls/u1/abc123/720p/seg_000.ts"]]
           eq_refl (fun _ _ => eq_refl)).
Defined.

End StorageDeletion.

(** ** Catalog: what the deletion of a video asks of the storage *)

Section CatalogDeletion.

Import Catalog.

(** The requests of [DeleteVideoCompletely] for a video that was
    found. *)
Lemma cleanup_requests (s : VideoDeleteService) (w : World) (videoID : nat)
    (video : Video) :
  dbFirst w videoID = Found video →
  prefixesDeleted (DeleteVideoCompletely s w videoID).1
  = [(processedBucket s, "hls/" +:+ UserID video +:+ "/" +:+ UploadID video +:+ "/")]
  ∧ blobsDeleted (DeleteVideoCompletely s w videoID).1
    = ((if RawVideoPath video =? "" then [] else [(rawBucket s, RawVideoPath video)])
       ++ [(processedBucket s,
            "thumbnails/" +:+ UserID video +:+ "/" +:+ UploadID video +:+ ".jpg")])%list
  ∧ rowsDeleted (DeleteVideoCompletely s w videoID).1 = [video]
  ∧ (DeleteVideoCompletely s w videoID).2
    = (fun e => "failed to delete video from database: " +:+ e) <$> dbDelete w video.
Proof.
  intros Hfound. unfold DeleteVideoCompletely, deleteRaw, deleteHLS, deleteThumbnail.
  rewrite Hfound.
  destruct (RawVideoPath video =? "");
    destruct (storageDeleteBlob w (rawBucket s) (RawVideoPath video));
    destruct (storageDeleteBlobsWithPrefix w (processedBucket s) _);
    destruct (storageDeleteBlob w (processedBucket s) _);
    destruct (dbDelete w video); repeat split; reflexivity.
Qed.

(** X17: the cleanup of the storage is best effort, the row decides.
    When the video is found, [DeleteVideoCompletely] asks the storage,
    whatever it answers, to delete the raw file (if the row has one) from
    the raw bucket, everything under [hls/<userId>/<uploadId>/] and the
    thumbnail [thumbnails/<userId>/<uploadId>.jpg] from the processed
    bucket; it then deletes the row, once, and returns the error of that
    deletion only.  When the video is not found, or the lookup fails, it
    returns an error and deletes nothing. *)
Theorem storage_cleanup_is_best_effort (s : VideoDeleteService) (w : World)
    (videoID : nat) :
  let run := DeleteVideoCompletely s w videoID in
  match dbFirst w videoID with
  | Found video =>
      prefixesDeleted run.1
      = [(processedBucket s, "hls/" +:+ UserID video +:+ "/" +:+ UploadID video +:+ "/")]
      ∧ blobsDeleted run.1
        = ((if RawVideoPath video =? "" then [] else [(rawBucket s, RawVideoPath video)])
           ++ [(processedBucket s,
                "thumbnails/" +:+ UserID video +:+ "/" +:+ UploadID video +:+ ".jpg")])%list
      ∧ rowsDeleted run.1 = [video]
      ∧ run.2 = (fun e => "failed to delete video from database: " +:+ e)
                  <$> dbDelete w video
  | _ =>
      prefixesDeleted run.1 = [] ∧ blobsDeleted run.1 = [] ∧ rowsDeleted run.1 = []
      ∧ is_Some run.2
  end.
Proof.
  cbv zeta. destruct (dbFirst w videoID) as [video| |e] eqn:Hfirst.
  - now apply cleanup_requests.
  - unfold DeleteVideoCompletely. rewrite Hfirst. repeat split; eauto.
  - unfold DeleteVideoCompletely. rewrite Hfirst. repeat split; eauto.
Qed.

Lemma uploaded_path_inv (t : list Transcoder.Effect) (blobPath : string) :
  blobPath ∈ Shape.uploadedPaths t →
  ∃ localPath contentType, Transcoder.EUpload localPath blobPath contentType ∈ t.
Proof.
  unfold Shape.uploadedPaths. intros H. apply list_elem_of_omap in H as (e & He & Hp).
  destruct e; try discriminate. injection Hp as ->. eauto.
Qed.

(** X18: the deletion reaches everything the transcoder uploaded.  For
    a job whose identifiers are plain path elements, and the row of the
    catalog with the same identifiers, every blob path the job has
    uploaded to lies under the prefix, or is the blob, that
    [DeleteVideoCompletely] asks the storage to delete from the processed
    bucket of the service. *)
Theorem deletion_covers_uploads (tw : Transcoder.World) (body : string)
    (evt : Transcoder.UploadEvent) (s : VideoDeleteService) (w : World)
    (videoID : nat) (video : Video) :
  Transcoder.unmarshal tw body = inr evt →
  Shape.plainSegment (Transcoder.UserID evt) = true →
  Shape.plainSegment (Transcoder.UploadID evt) = true →
  (∀ rel, Transcoder.WalkFile rel
            ∈ Transcoder.walkDir tw (GoPath.Join [Transcoder.workDir tw evt; "hls"]) →
          Shape.cleanRel rel = true) →
  dbFirst w videoID = Found video →
  UserID video = Transcoder.UserID evt →
  UploadID video = Transcoder.UploadID evt →
  ∀ blobPath, blobPath ∈ Shape.uploadedPaths (Transcoder.Handle tw body).1 →
    (∃ prefix, (processedBucket s, prefix)
                 ∈ prefixesDeleted (DeleteVideoCompletely s w videoID).1
               ∧ HasPrefix blobPath prefix = true)
    ∨ (processedBucket s, blobPath) ∈ blobsDeleted (DeleteVideoCompletely s w videoID).1.
Proof.
  intros Hevt Hu Hi Hwalk Hfound Huser Hupload blobPath Hin.
  destruct (cleanup_requests s w videoID video Hfound) as (Hp & Hb & _).
  rewrite Hp, Hb, Huser, Hupload.
  apply uploaded_path_inv in Hin as (localPath & contentType & Hin).
  destruct (upload_paths_of_plain_ids tw body evt Hevt Hu Hi Hwalk _ _ _ Hin)
    as [(rel & _ & ->) | ->].
  - left. eexists. split; [apply list_elem_of_singleton; reflexivity |].
    unfold HasPrefix.
    replace ("hls/" +:+ Transcoder.UserID evt +:+ "/" +:+ Transcoder.UploadID evt
             +:+ "/" +:+ rel)
      with (("hls/" +:+ Transcoder.UserID evt +:+ "/" +:+ Transcoder.UploadID evt +:+ "/")
            +:+ rel) by now rewrite !app_assoc_s.
    apply prefix_app.
  - right. apply elem_of_app. right. now apply list_elem_of_singleton.
Qed.

Lemma deletion_covers_uploads_witness :
  let tw := Examples.jobWorld (Examples.uploadEvent "u1") None false in
  (∃ prefix, ("processed-videos", prefix)
               ∈ prefixesDeleted (DeleteVideoCompletely DeletionExamples.service
                                    DeletionExamples.catalogWorld 7).1
             ∧ HasPrefix "hls/u1/abc123/720p/seg_000.ts" prefix = true)
  ∨ ("processed-videos", "hls/u1/abc123/720p/seg_000.ts")
      ∈ blobsDeleted (DeleteVideoCompletely DeletionExamples.service
                        DeletionExamples.catalogWorld 7).1.
Proof.
  apply (deletion_covers_uploads
           (Examples.jobWorld (Examples.uploadEvent "u1") None false) "{}"
           (Examples.uploadEvent "u1") DeletionExamples.service
           DeletionExamples.catalogWorld 7 DeletionExamples.storedVideo);
    try reflexivity.
  - intros rel Hrel. vm_compute in Hrel.
    repeat (apply elem_of_cons in Hrel as [Hrel | Hrel];
            [try discriminate; injection Hrel as ->; reflexivity |]).
    now apply elem_of_nil in Hrel.
  - vm_compute. repeat constructor.
Defined.

End CatalogDeletion.

(** ** Catalog: the HLS prefix of a manifest URL *)

Section HLSPrefix.

Import Catalog URLForms.

Lemma Index_absent (c : ascii) (sep' s : string) :
  Shape.noByte c s = true → Index s (String c sep') = None.
Proof.
  induction s as [|a s IH]; intros Hno; [reflexivity |].
  cbn [Shape.noByte] in Hno. apply andb_true_iff in Hno as [Ha Hs].
  apply negb_true_iff in Ha. cbn [Index]. unfold HasPrefix at 1.
  rewrite (prefix_head_ne _ _ _ _ Ha). now rewrite (IH Hs).
Qed.

(** A string without the byte [c], or its part before the first [c] and
    the part behind it. *)
Lemma first_byte (c : ascii) (s : string) :
  Shape.noByte c s = true
  ∨ ∃ pre rest, s = pre +:+ String c rest ∧ Shape.noByte c pre = true
                ∧ (String.length rest < String.length s)%nat.
Proof.
  induction s as [|a s IH]; [now left |].
  destruct (Ascii.eqb a c) eqn:Ha.
  - right. apply Ascii.eqb_eq in Ha as ->. exists "", s. cbn. repeat split. lia.
  - destruct IH as [Hno | (pre & rest & -> & Hno & Hlen)].
    + left. cbn [Shape.noByte]. now rewrite Ha, Hno.
    + right. exists (String a pre), rest. cbn [Shape.noByte String.length].
      rewrite Ha, Hno. repeat split. cbn [String.append String.length]. lia.
Qed.

(** [strings.Split] at a one-byte separator cuts at every occurrence of
    the byte. *)
Lemma Split_cutAll (c : ascii) (s : string) : Split s (String c "") = cutAll c s.
Proof.
  unfold Split. generalize (le_n (String.length s)).
  generalize (String.length s) at 2 3. intros k. revert s.
  induction k as [|k IH]; intros s Hlen.
  - destruct s; [reflexivity | cbn in Hlen; lia].
  - destruct (first_byte c s) as [Hno | (pre & rest & -> & Hno & Hlt)].
    + cbn [genSplit]. now rewrite (Index_absent _ _ _ Hno), (cutAll_noByte _ _ Hno).
    + rewrite (cutAll_app _ _ _ Hno).
      rewrite <- (IH rest) by lia.
      exact (genSplit_cut k c "" pre rest Hno).
Qed.

(** X19: [extractHLSPrefix] reads the prefix off the URL.  For a
    manifest URL of the form
    [http(s)://host/bucket/hls/<userId>/<uploadId>/master.m3u8] whose
    host and bucket hold no slash and are not named [hls], and plain
    identifiers, the prefix extracted is [hls/<userId>/<uploadId>],
    whatever identifiers are passed for the fallback. *)
Theorem extractHLSPrefix_reads_url (scheme host bucket userID uploadID : string)
    (fallbackUser fallbackUpload : string) :
  scheme = "http://" ∨ scheme = "https://" →
  Shape.noByte "/" host = true → host ≠ "hls" →
  Shape.noByte "/" bucket = true → bucket ≠ "hls" →
  Shape.plainSegment userID = true →
  Shape.plainSegment uploadID = true →
  extractHLSPrefix
    (genericURL scheme host bucket
       ("hls/" +:+ userID +:+ "/" +:+ uploadID +:+ "/master.m3u8"))
    fallbackUser fallbackUpload
  = "hls/" +:+ userID +:+ "/" +:+ uploadID.
Proof.
  intros Hscheme Hhost Hhost' Hbucket Hbucket' Hu Hi.
  destruct (plainSegment_inv _ Hu) as (_ & _ & _ & Hu').
  destruct (plainSegment_inv _ Hi) as (_ & _ & _ & Hi').
  apply String.eqb_neq in Hhost', Hbucket'.
  set (tail := "hls/" +:+ userID +:+ "/" +:+ uploadID +:+ "/master.m3u8").
  assert (H1 : cutAll "/" (uploadID +:+ "/master.m3u8") = [uploadID; "master.m3u8"]).
  { exact (cutAll_app "/" uploadID "master.m3u8" Hi'). }
  assert (H2 : cutAll "/" (userID +:+ "/" +:+ uploadID +:+ "/master.m3u8")
               = [userID; uploadID; "master.m3u8"]).
  { exact (eq_trans (cutAll_app "/" userID _ Hu') (f_equal (cons userID) H1)). }
  assert (H3 : cutAll "/" tail = ["hls"; userID; uploadID; "master.m3u8"]).
  { exact (eq_trans (cutAll_app "/" "hls" _ eq_refl) (f_equal (cons "hls") H2)). }
  assert (H4 : cutAll "/" (bucket +:+ "/" +:+ tail)
               = [bucket; "hls"; userID; uploadID; "master.m3u8"]).
  { exact (eq_trans (cutAll_app "/" bucket _ Hbucket) (f_equal (cons bucket) H3)). }
  assert (H5 : cutAll "/" (host +:+ "/" +:+ bucket +:+ "/" +:+ tail)
               = [host; bucket; "hls"; userID; uploadID; "master.m3u8"]).
  { exact (eq_trans (cutAll_app "/" host _ Hhost) (f_equal (cons host) H4)). }
  assert (Hjoin : GoPath.Join ["hls"; userID; uploadID]
                  = "hls/" +:+ userID +:+ "/" +:+ uploadID).
  { change (GoPath.Join ["hls"; userID; uploadID])
      with (GoPath.Clean (GoStrings.Join ["hls"; userID; uploadID] "/")).
    rewrite Clean_plain; [reflexivity | discriminate |].
    cbn [forallb]. now rewrite Hu, Hi. }
  unfold extractHLSPrefix, genericURL. fold tail.
  change "/" with (String "/" "") at 1. rewrite Split_cutAll.
  destruct Hscheme as [-> | ->].
  - assert (H6 : cutAll "/" ("http://" +:+ host +:+ "/" +:+ bucket +:+ "/" +:+ tail)
                 = ["http:"; ""; host; bucket; "hls"; userID; uploadID; "master.m3u8"]).
    { exact (eq_trans (cutAll_app "/" "http:" _ eq_refl)
               (f_equal (cons "http:")
                  (eq_trans (cutAll_app "/" "" _ eq_refl) (f_equal (cons "") H5)))). }
    rewrite H6. cbn [findHLS]. rewrite Hhost', Hbucket'.
    change ("http://" +:+ host +:+ "/" +:+ bucket +:+ "/" +:+ tail =? "") with false.
    cbv beta iota. exact Hjoin.
  - assert (H6 : cutAll "/" ("https://" +:+ host +:+ "/" +:+ bucket +:+ "/" +:+ tail)
                 = ["https:"; ""; host; bucket; "hls"; userID; uploadID; "master.m3u8"]).
    { exact (eq_trans (cutAll_app "/" "https:" _ eq_refl)
               (f_equal (cons "https:")
                  (eq_trans (cutAll_app "/" "" _ eq_refl) (f_equal (cons "") H5)))). }
    rewrite H6. cbn [findHLS]. rewrite Hhost', Hbucket'.
    change ("https://" +:+ host +:+ "/" +:+ bucket +:+ "/" +:+ tail =? "") with false.
    cbv beta iota. exact Hjoin.
Qed.

Lemma extractHLSPrefix_reads_url_witness :
  extractHLSPrefix "http://minio:9000/processed-videos/hls/u1/abc123/master.m3u8"
    "someone" "else"
  = "hls/u1/abc123".
Proof.
  apply (extractHLSPrefix_reads_url "http://" "minio:9000" "processed-videos"
           "u1" "abc123" "someone" "else"); try reflexivity; try discriminate.
  now left.
Defined.

End HLSPrefix.

(** ** The constructors: which bucket each service uses *)

Section Buckets.

Import Setup.

(** X20: a handler is private exactly when it has a bucket.
    [NewHandler] attaches the client of the object store and a
    non-empty bucket together, or neither; the cache service is kept in
    both modes. *)
Theorem NewHandler_private_iff_bucket (w : Transcoder.World) (cacheService : bool)
    (loadConfig : option string) :
  let h := NewHandler w cacheService loadConfig in
  Playback.s3client h = negb (Playback.bucket h =? "")
  ∧ Playback.cache h = cacheService.
Proof.
  cbv zeta. unfold NewHandler.
  destruct (negb (_ =? "") && negb (_ =? "") && negb (_ =? "")); [| now split].
  destruct loadConfig as [e|]; [now split |]. cbn [Playback.s3client Playback.bucket
    Playback.cache]. split; [| reflexivity].
  match goal with
  | |- context [if ?b =? "" then "raw-videos" else _] => destruct (b =? "") eqn:Hb
  end.
  - reflexivity.
  - now rewrite Hb.
Qed.

(** X21: the processed bucket of the three services.  Without a
    mounted secret for the bucket, a private playback handler, the
    storage client of the transcoder and the deletion service of the
    catalog use the same processed bucket when [MINIO_PROCESSED_BUCKET]
    is set.  When it is not set they part: the transcoder uploads to
    [processed-videos], the playback handler reads from the raw bucket of
    the transcoder, and the catalog deletes from the bucket of empty
    name. *)
Theorem processed_bucket_agreement (w : Transcoder.World) (cacheService : bool)
    (loadConfig loadConfig' : option string) (c : BlobStore.S3Client) :
  Transcoder.readSecret w "/mnt/secrets-store/minio-processed-bucket" = None →
  NewS3ClientFromEnv w loadConfig = inr c →
  Playback.s3client (NewHandler w cacheService loadConfig') = true →
  let h := NewHandler w cacheService loadConfig' in
  let s := NewVideoDeleteService w in
  if Transcoder.getenv w "MINIO_PROCESSED_BUCKET" =? ""
  then Playback.bucket h = BlobStore.rawBucket c
       ∧ BlobStore.processedBucket c = "processed-videos"
       ∧ Catalog.processedBucket s = ""
  else Playback.bucket h = BlobStore.processedBucket c
       ∧ Catalog.processedBucket s = BlobStore.processedBucket c.
Proof.
  intros Hfile Hclient Hprivate. cbv zeta.
  unfold NewS3ClientFromEnv in Hclient.
  destruct loadConfig as [e|]; [discriminate |]. injection Hclient as <-.
  cbn [BlobStore.rawBucket BlobStore.processedBucket Catalog.processedBucket
       NewVideoDeleteService].
  assert (Hsec : Transcoder.getSecret w "/mnt/secrets-store/minio-processed-bucket"
                   "MINIO_PROCESSED_BUCKET"
                 = Transcoder.getenv w "MINIO_PROCESSED_BUCKET").
  { unfold Transcoder.getSecret. now rewrite Hfile. }
  unfold NewHandler in *. rewrite !Hsec in *.
  destruct (negb (_ =? "") && negb (_ =? "") && negb (_ =? "")); [| discriminate].
  destruct loadConfig' as [e|]; [discriminate |]. cbn [Playback.bucket].
  destruct (Transcoder.getenv w "MINIO_PROCESSED_BUCKET" =? "") eqn:Hp.
  - apply String.eqb_eq in Hp. now repeat split.
  - rewrite Hp. now split.
Qed.

Lemma processed_bucket_agreement_witness :
  Playback.bucket (NewHandler (deployment "") true None) = "raw-videos"
  ∧ BlobStore.processedBucket DeletionExamples.client = "processed-videos"
  ∧ Catalog.processedBucket (NewVideoDeleteService (deployment "")) = "".
Proof.
  exact (processed_bucket_agreement (deployment "") true None None
           DeletionExamples.client eq_refl eq_refl eq_refl).
Defined.

End Buckets.
